(** * ricedebias: Rician bias correction of a 4D diffusion volume

    A shallow embedding of [src/ricedebias.cpp] (option readers and [main]),
    followed by the properties of the processing pipeline.

    Numbers are IEEE 754 values in the representation of the standard
    library's [SpecFloat]: the program computes in [double] (its
    [float_t]) and stores the output volume in [float]. *)

From Stdlib Require Import ZArith List String Ascii Bool Lia.
From Stdlib Require Import Floats.SpecFloat.
Import ListNotations.
Local Open Scope Z_scope.

(* ================================================================== *)
(** * Part I. Definitions *)
(* ================================================================== *)

(** ** IEEE 754 values *)

Module IEEE.

(** [typedef double float_t;] in [main]: binary64. *)
Definition float_t : Type := spec_float.

(** The element type of the output volume, [smt::onifti<float, 4>]:
    binary32. *)
Definition float : Type := spec_float.

Definition prec64 : Z := 53.
Definition emax64 : Z := 1024.
Definition prec32 : Z := 24.
Definition emax32 : Z := 128.

(** [float_t(0)], and the [int] literal [0] converted to [double]. *)
Definition zero : float_t := S754_zero false.

(** The C++ comparisons [a == b], [a != b] and [a > b] on floating-point
    operands.  Every comparison with a NaN operand is false, except [!=]. *)
Definition feq (a b : spec_float) : bool := SFeqb a b.
Definition fne (a b : spec_float) : bool := negb (SFeqb a b).
Definition fgt (a b : spec_float) : bool := SFltb b a.

(** The implicit conversion of an assignment [float_lvalue = double_value]:
    round to nearest, ties to even, into binary32. *)
Definition narrow (x : float_t) : float :=
  match x with
  | S754_finite s m e =>
      binary_normalize prec32 emax32 (cond_Zopp s (Zpos m)) e s
  | _ => x
  end.

(** The promotion of a [float] to [double] (exact), as performed when a
    [float] is compared with a [double]. *)
Definition widen (x : float) : float_t :=
  match x with
  | S754_finite s m e =>
      binary_normalize prec64 emax64 (cond_Zopp s (Zpos m)) e s
  | _ => x
  end.

(** The [double] nearest to the decimal number [(-1)^s * m * 10^e], as the
    conversion of a decimal literal or of the characters of a stream gives
    it ([m] is not negative). *)
Definition of_decimal (s : bool) (m : Z) (e : Z) : float_t :=
  match m with
  | Zpos p =>
      if 0 <=? e
      then binary_normalize prec64 emax64 (cond_Zopp s (m * 10 ^ e)) 0 s
      else SFdiv prec64 emax64 (S754_finite s p 0)
                 (S754_finite false (Z.to_pos (10 ^ (- e))) 0)
  | _ => S754_zero s
  end.

End IEEE.
Import IEEE.


(** ** Collaborators of the program that are not part of [ricedebias.cpp] *)

(** The headers [nifti.h], [ricedebias.h] and [fmt.h] and the C++ stream
    library are used by the program and are not under [src/].  What the
    program needs of them is gathered in one interface. *)
Class Externals : Type := {
  (** [nifti.h]: the coordinate data of a header (qform and sform fields)
      and the rest of the header that goes with an image. *)
  transform : Type;
  transform_eq_dec : forall x y : transform, {x = y} + {x <> y};
  provenance : Type;
  (** [nifti.h]: the value of a cell of a new output image that nothing was
      assigned to. *)
  fill : float;
  (** [ricedebias.h]: [smt::ricedebias(signal, noise)]. *)
  ricedebias : float_t -> float_t -> float_t;
  (** [<sstream>]: [std::istringstream sin(s); sin >> scalar].  [None] when
      the extraction fails ([!(sin >> scalar)] is true); [Some (v, rest)]
      when it stores [v] and leaves the characters [rest] unread. *)
  extract : string -> option (float_t * string);
  (** [fmt.h]: [smt::format_string]. *)
  format_string : string -> string
}.

(** ** Volumes *)

Definition idx3 : Type := Z * Z * Z.
Definition idx4 : Type := Z * Z * Z * Z.

Definition idx4_eqb (a b : idx4) : bool :=
  let '(i, j, k, t) := a in
  let '(i', j', k', t') := b in
  (i =? i') && (j =? j') && (k =? k') && (t =? t').

Section Volumes.
Context `{Ext : Externals}.

(** Modelled from the spec: the header of a volume ([nifti.h] is not under
    [src/]).  "spatial axes i,j,k have an associated physical voxel spacing
    and a coordinate transform"; the remaining fields are the
    "format-specific provenance fields". *)
Record header : Type := {
  pixdim : nat -> float_t;
  xform : transform;
  descrip : provenance
}.

(** [smt::inifti<float_t, D>] once a file is loaded: the extents, the
    header and the voxel data, read by [operator()].  [I] is the index
    type, [idx3] for [D = 3] and [idx4] for [D = 4].  The empty volume of
    the default constructor, for which [operator bool] is false, is [None]
    of [option (inifti I)]. *)
Record inifti (I : Type) : Type := {
  dims : list Z;
  hdr : header;
  voxel : I -> float_t
}.
Arguments dims {I} _.
Arguments hdr {I} _.
Arguments voxel {I} _ _.

(** [v.size(d)] and [v.pixsize(d)]. *)
Definition size {I} (v : inifti I) (d : nat) : Z := nth d (dims v) 0.
Definition pixsize {I} (v : inifti I) (d : nat) : float_t := pixdim (hdr v) d.

(** Modelled from the spec: [a.has_equal_spatial_coords(b)] ([nifti.h] is
    not under [src/]): "the coordinate transforms are identical". *)
Definition has_equal_spatial_coords {I J} (a : inifti I) (b : inifti J) : bool :=
  if transform_eq_dec (xform (hdr a)) (xform (hdr b)) then true else false.

(** [smt::onifti<float, 4>]: the output image. *)
Record onifti : Type := {
  ofile : string;
  odims : list Z;
  ohdr : header;
  odata : idx4 -> float
}.

(** Modelled from the spec: the constructor
    [smt::onifti<float, 4>(file, like, n0, n1, n2, n3)] ([nifti.h] is not
    under [src/]): "allocate an OutputVolume with extents (size_i, size_j,
    size_k, size_t) ... and header metadata ... copied from the input",
    every cell holding the allocated default. *)
Definition onifti_new {I} (file : string) (like : inifti I)
    (n0 n1 n2 n3 : Z) : onifti :=
  {| ofile := file;
     odims := [n0; n1; n2; n3];
     ohdr := hdr like;
     odata := fun _ => fill |}.

(** The assignment [output(ii, jj, kk, zz) = v] where [v] is a [double]:
    the cell receives [v] converted to [float]. *)
Definition oset (o : onifti) (c : idx4) (v : float_t) : onifti :=
  {| ofile := ofile o;
     odims := odims o;
     ohdr := ohdr o;
     odata := fun c' => if idx4_eqb c c' then narrow v else odata o c' |}.

End Volumes.
Arguments dims {Ext I} _.
Arguments hdr {Ext I} _.
Arguments voxel {Ext I} _ _.

(** ** The command line and the environment *)

(** The parsed command line, [std::map<std::string, docopt::value> args]:
    an option that has no value is [None], and [args["--x"]] is then false
    in a condition. *)
Record args : Type := {
  opt_license : bool;
  arg_input : string;
  arg_output : string;
  opt_mask : option string;
  opt_rician : option string;
  opt_maxdiff : option string
}.

(** [args["--x"].asString()]. *)
Definition asString (v : option string) : string :=
  match v with
  | Some s => s
  | None => EmptyString
  end.

Inductive exit_status : Type := EXIT_SUCCESS | EXIT_FAILURE.

(** What a run prints: the licence text on the standard output, or a
    diagnostic of [smt::error]. *)
Inductive event : Type :=
| print_LICENSE
| error (msg : string).

(** A step of [main] either goes on with a value or leaves the process
    ([return EXIT_...] in [main], [std::exit] in a reader). *)
Inductive proc (A : Type) : Type :=
| Ret (a : A)
| Exit (st : exit_status) (log : list event).
Arguments Ret {A} a.
Arguments Exit {A} st log.

(** The steps of [main] run one after the other on the state [S] of the
    process; in [main] the state is the output image, which exists from the
    moment its constructor has run.  An exit ends the run and leaves the
    state as it is at that moment. *)
Definition step (S A : Type) : Type := S -> proc A * S.

(** A step that leaves the state alone: a test, a reader. *)
Definition pure {S A : Type} (m : proc A) : step S A := fun s => (m, s).

Definition bind {S A B : Type} (m : step S A) (f : A -> step S B) : step S B :=
  fun s =>
    match m s with
    | (Ret a, s') => f a s'
    | (Exit st log, s') => (Exit st log, s')
    end.

Notation "x <- m ;; f" := (bind m (fun x => f))
  (at level 61, m at next level, right associativity).
Notation "m ;;; f" := (bind m (fun _ => f))
  (at level 61, right associativity).

(** [for (int i = 0; i < n; i++) body]. *)
Definition range (n : Z) : list Z := map Z.of_nat (seq 0 (Z.to_nat n)).

Definition for_loop {S : Type} (n : Z) (body : Z -> S -> S) (s : S) : S :=
  fold_left (fun s i => body i s) (range n) s.

(** The three classes of geometry mismatch, in the order [main] tests
    them. *)
Inductive mismatch : Type := Extent | Spacing | Coordinates.

(** The text given to [smt::error] for a mismatch between [<input>] and the
    volume of the option value [other]. *)
Definition diagnostic (c : mismatch) (input other : string) : string :=
  match c with
  | Extent =>
      "‘" ++ input ++ "’ and ‘" ++ other ++ "’ do not match."
  | Spacing =>
      "The pixel sizes of ‘" ++ input ++ "’ and ‘" ++ other
        ++ "’ do not match."
  | Coordinates =>
      "The coordinate systems of ‘" ++ input ++ "’ and ‘" ++ other
        ++ "’ do not match."
  end%string.

Section Program.
Context `{Ext : Externals}.

(** Modelled from the spec: the environment of a run, that is the number
    that [smt::threads()] returns and the NIfTI reader of [nifti.h] (not
    under [src/]), "reading ... a multi-dimensional scalar volume with header
    metadata": [nifti3 w path] and [nifti4 w path] are the volumes that the
    constructors [smt::inifti<float_t, 3>(path)] and
    [smt::inifti<float_t, 4>(path)] give.  What the reader does with a file
    that is missing or cannot be read is not known from the source; runs in
    which that happens are not described here, and every statement below is
    about runs whose files were read. *)
Record world : Type := {
  threads : N;
  nifti3 : string -> inifti idx3;
  nifti4 : string -> inifti idx4
}.

(** The outcome of a run: the exit status, what was printed, and the output
    image if its constructor was reached. *)
Record result : Type := {
  status : exit_status;
  log : list event;
  output : option onifti
}.

(** [read_mask]. *)
Definition read_mask (w : world) (a : args) : option (inifti idx3) :=
  match opt_mask a with
  | Some s =>
      if negb (String.eqb s "none") then Some (nifti3 w s) else None
  | None => None
  end.

(** [read_rician]: the pair of the scalar noise level and the noise map. *)
Definition read_rician (w : world) (a : args)
    : float_t * option (inifti idx3) :=
  match opt_rician a with
  | Some s =>
      if negb (String.eqb s "none") then
        match extract s with
        | None => (zero, Some (nifti3 w s))
        | Some (scalar, _) => (scalar, None)
        end
      else (zero, None)
  | None => (zero, None)
  end.

(** [read_maxdiff]; [float_t(3.05e-3)] is the default. *)
Definition read_maxdiff (a : args) : proc float_t :=
  match opt_maxdiff a with
  | Some s =>
      match extract s with
      | None => Exit EXIT_FAILURE [error ("Unable to parse ‘" ++ s ++ "’.")]
      | Some (maxdiff, _) => Ret maxdiff
      end
  | None => Ret (of_decimal false 305 (-5))
  end.

(** The three tests that [main] makes on [input] and a mask or a noise map,
    in their order: the first that fails gives the class. *)
Definition check_geometry {I J} (a : inifti I) (b : inifti J) : option mismatch :=
  if negb (size a 0 =? size b 0) || negb (size a 1 =? size b 1)
     || negb (size a 2 =? size b 2)
  then Some Extent
  else if fne (pixsize a 0) (pixsize b 0) || fne (pixsize a 1) (pixsize b 1)
          || fne (pixsize a 2) (pixsize b 2)
  then Some Spacing
  else if negb (has_equal_spatial_coords a b)
  then Some Coordinates
  else None.

Definition compatible {I J} (a : inifti I) (b : inifti J) : bool :=
  match check_geometry a b with
  | None => true
  | Some _ => false
  end.

(** [if (other) { ... smt::error(...); return EXIT_FAILURE; ... }]. *)
Definition validate {I J} (input : inifti I) (other : option (inifti J))
    (input_name other_name : string) : proc unit :=
  match other with
  | Some v =>
      match check_geometry input v with
      | Some c => Exit EXIT_FAILURE [error (diagnostic c input_name other_name)]
      | None => Ret tt
      end
  | None => Ret tt
  end.

(** The condition [(!mask) || mask(ii, jj, kk) > 0]. *)
Definition foreground (mask : option (inifti idx3)) (c : idx3) : bool :=
  match mask with
  | None => true
  | Some m => fgt (voxel m c) zero
  end.

(** The body of the innermost loop. *)
Definition visit (input : inifti idx4) (mask : option (inifti idx3))
    (rician : float_t * option (inifti idx3))
    (ii jj kk zz : Z) (output : onifti) : onifti :=
  if foreground mask (ii, jj, kk) then
    let output := oset output (ii, jj, kk, zz) (voxel input (ii, jj, kk, zz)) in
    match snd rician with
    | Some noise =>
        oset output (ii, jj, kk, zz)
          (ricedebias (voxel input (ii, jj, kk, zz)) (voxel noise (ii, jj, kk)))
    | None =>
        if fgt (fst rician) zero then
          oset output (ii, jj, kk, zz)
            (ricedebias (voxel input (ii, jj, kk, zz)) (fst rician))
        else output
    end
  else output.

(** The loop nest of [main]. *)
Definition correct (input : inifti idx4) (mask : option (inifti idx3))
    (rician : float_t * option (inifti idx3)) (output : onifti) : onifti :=
  for_loop (size input 3) (fun zz =>
    for_loop (size input 2) (fun kk =>
      for_loop (size input 1) (fun jj =>
        for_loop (size input 0) (fun ii =>
          visit input mask rician ii jj kk zz)))) output.

(** [smt::onifti<float, 4> output = smt::onifti<float, 4>(...)]: the
    constructor creates the output image, and [output] names it. *)
Definition construct (o : onifti) : step (option onifti) onifti :=
  fun _ => (Ret o, Some o).

(** The assignments of the loop nest go to the output image. *)
Definition store (o : onifti) : step (option onifti) unit :=
  fun _ => (Ret tt, Some o).

(** [main], from the parsed command line on. *)
Definition run (w : world) (a : args) : step (option onifti) unit :=
  pure (if opt_license a then Exit EXIT_SUCCESS [print_LICENSE] else Ret tt) ;;;
  let input := nifti4 w (arg_input a) in
  let mask := read_mask w a in
  pure (validate input mask (arg_input a) (asString (opt_mask a))) ;;;
  let rician := read_rician w a in
  pure (validate input (snd rician) (arg_input a) (asString (opt_rician a))) ;;;
  maxdiff <- pure (read_maxdiff a) ;;
  output <- construct
    (onifti_new (format_string (arg_output a)) input
       (size input 0) (size input 1) (size input 2) (size input 3)) ;;
  let nthreads := threads w in
  let chunk := 10%N in
  store (correct input mask rician output).

(** A run starts without an output image; its outcome has the image that
    exists when the process ends. *)
Definition main (w : world) (a : args) : result :=
  match run w a None with
  | (Ret _, image) =>
      {| status := EXIT_SUCCESS; log := []; output := image |}
  | (Exit st l, image) =>
      {| status := st; log := l; output := image |}
  end.

End Program.

(** ** An instance of the collaborators, to run the program on examples *)

(** A reference instance of [sin >> scalar] for decimal literals: white
    space is skipped, then a sign, digits, a fraction and an exponent are
    read as far as they go; the extraction fails when no digit was read,
    when an exponent has no digit, or when the value overflows. *)
Module Istream.

Definition isspace (c : ascii) : bool :=
  let n := Z.of_N (N_of_ascii c) in
  (n =? 32) || ((9 <=? n) && (n <=? 13)).

Definition digit (c : ascii) : option Z :=
  let n := Z.of_N (N_of_ascii c) in
  if (48 <=? n) && (n <=? 57) then Some (n - 48) else None.

Fixpoint skipws (s : string) : string :=
  match s with
  | String c r => if isspace c then skipws r else s
  | EmptyString => s
  end.

(** The digits at the head of [s], accumulated on [acc]; [n] counts them. *)
Fixpoint digits (s : string) (acc n : Z) : Z * Z * string :=
  match s with
  | String c r =>
      match digit c with
      | Some d => digits r (10 * acc + d) (n + 1)
      | None => (acc, n, s)
      end
  | EmptyString => (acc, n, s)
  end.

Definition sign (s : string) : bool * string :=
  match s with
  | String "-" r => (true, r)
  | String "+" r => (false, r)
  | _ => (false, s)
  end.

Definition finish (neg : bool) (m e : Z) (rest : string)
    : option (float_t * string) :=
  match of_decimal neg m e with
  | S754_infinity _ => None
  | v => Some (v, rest)
  end.

Definition extract_double (s : string) : option (float_t * string) :=
  let '(neg, s1) := sign (skipws s) in
  let '(ip, ni, s2) := digits s1 0 0 in
  let '(m, nf, s3) :=
    match s2 with
    | String "." r => digits r ip 0
    | _ => (ip, 0, s2)
    end in
  if ni + nf =? 0 then None
  else
    match s3 with
    | String c r =>
        if Ascii.eqb c "e" || Ascii.eqb c "E" then
          let '(eneg, r1) := sign r in
          let '(ev, ne, r2) := digits r1 0 0 in
          if ne =? 0 then None
          else finish neg m ((if eneg then - ev else ev) - nf) r2
        else finish neg m (- nf) s3
    | EmptyString => finish neg m (- nf) s3
    end.

End Istream.

Module Example.

(** A stand-in for the correction formula: [sqrt |x^2 - sigma^2|]. *)
Definition formula (x sigma : float_t) : float_t :=
  SFsqrt prec64 emax64
    (SFabs (SFsub prec64 emax64 (SFmul prec64 emax64 x x)
                                (SFmul prec64 emax64 sigma sigma))).

(** Transforms are the twelve coefficients of an affine map, scaled to
    integers; the output is zero-filled. *)
#[local] Instance externals : Externals := {|
  transform := list Z;
  transform_eq_dec := list_eq_dec Z.eq_dec;
  provenance := string;
  fill := S754_zero false;
  ricedebias := formula;
  extract := Istream.extract_double;
  format_string := fun s => s
|}.


Definition dbl (m e : Z) : float_t := of_decimal false m e.

Definition head (spacing : float_t) (x : list Z) (d : string) : header :=
  {| pixdim := fun _ => spacing; xform := x; descrip := d |}.

Definition identity : list Z := [1; 0; 0; 0; 0; 1; 0; 0; 0; 0; 1; 0].

(** A 2 x 1 x 1 x 2 series.  Its values 0.1 and 0.10000000000000002 are
    neighbours in [double]. *)
Definition dwi : inifti idx4 :=
  {| dims := [2; 1; 1; 2];
     hdr := head (dbl 2 0) identity "dwi";
     voxel := fun c =>
       let '(i, _, _, t) := c in
       if (i =? 0) && (t =? 0) then dbl 1 (-1)
       else if (i =? 1) && (t =? 0) then dbl 13 0
       else if (i =? 0) && (t =? 1) then dbl 5 0
       else dbl 10000000000000002 (-17) |}.

(** Its mask: the first voxel is foreground, the second is not. *)
Definition brain : inifti idx3 :=
  {| dims := [2; 1; 1];
     hdr := head (dbl 2 0) identity "mask";
     voxel := fun c => let '(i, _, _) := c in if i =? 0 then dbl 1 0 else zero |}.

(** A noise map. *)
Definition sigma : inifti idx3 :=
  {| dims := [2; 1; 1];
     hdr := head (dbl 2 0) identity "sigma";
     voxel := fun c => let '(i, _, _) := c in if i =? 0 then dbl 3 0 else dbl 5 0 |}.

(** Three volumes that do not fit [dwi]: in extent, in spacing, in
    coordinates. *)
Definition small : inifti idx3 :=
  {| dims := [1; 1; 1];
     hdr := head (dbl 2 0) identity "small";
     voxel := fun _ => dbl 1 0 |}.

Definition coarse : inifti idx3 :=
  {| dims := [2; 1; 1];
     hdr := head (dbl 3 0) identity "coarse";
     voxel := fun _ => dbl 1 0 |}.

Definition shifted : inifti idx3 :=
  {| dims := [2; 1; 1];
     hdr := head (dbl 2 0) [1; 0; 0; 7; 0; 1; 0; 0; 0; 0; 1; 0] "shifted";
     voxel := fun _ => dbl 1 0 |}.

(** The files of the working directory; among them one named [12.5]. *)
Definition files (path : string) : inifti idx3 :=
  if String.eqb path "mask.nii" then brain
  else if String.eqb path "small.nii" then small
  else if String.eqb path "coarse.nii" then coarse
  else if String.eqb path "shifted.nii" then shifted
  else sigma.

Definition machine (n : N) : world :=
  {| threads := n; nifti3 := files; nifti4 := fun _ => dwi |}.

(** [ricedebias --mask m --rician r --maxdiff d dwi.nii out.nii]. *)
Definition command (m r d : string) : args :=
  {| opt_license := false;
     arg_input := "dwi.nii";
     arg_output := "out.nii";
     opt_mask := Some m;
     opt_rician := Some r;
     opt_maxdiff := Some d |}.

(** The cell of the output of a run, or [None] when there is no output. *)
Definition cell (r : result) (c : idx4) : option float :=
  match output r with
  | Some o => Some (odata o c)
  | None => None
  end.

End Example.

(** ** Vocabulary of the statements *)

Section Vocabulary.
Context `{Ext : Externals}.

(** The cells that the loop nest visits. *)
Definition in_bounds (input : inifti idx4) (c : idx4) : Prop :=
  let '(i, j, k, t) := c in
  0 <= i < size input 0 /\ 0 <= j < size input 1 /\
  0 <= k < size input 2 /\ 0 <= t < size input 3.

(** The spatial part of a cell. *)
Definition spatial (c : idx4) : idx3 :=
  let '(i, j, k, _) := c in (i, j, k).

(** [writes F W v]: the state transformer [F] stores [v c], converted to
    [float], in every cell [c] selected by [W] and leaves the other cells
    as they are. *)
Definition writes (F : onifti -> onifti) (W : idx4 -> bool)
    (v : idx4 -> float_t) : Prop :=
  forall o c, odata (F o) c = if W c then narrow (v c) else odata o c.

(** The [double] that the noise dispatch of a visit computes for a cell. *)
Definition dispatched (input : inifti idx4)
    (rician : float_t * option (inifti idx3)) (c : idx4) : float_t :=
  match snd rician with
  | Some noise => ricedebias (voxel input c) (voxel noise (spatial c))
  | None =>
      if fgt (fst rician) zero then ricedebias (voxel input c) (fst rician)
      else voxel input c
  end.

(** [same_frame o o']: [o'] differs from [o] in its data at most. *)
Definition same_frame (o o' : onifti) : Prop :=
  ofile o' = ofile o /\ odims o' = odims o /\ ohdr o' = ohdr o.

(** [needle] occurs in [hay]. *)
Definition names (hay needle : string) : Prop :=
  exists pre post, hay = (pre ++ needle ++ post)%string.

(** The three ways in which two volumes disagree: in the extent of a
    spatial axis, in the voxel spacing of a spatial axis (under the C++
    [==]), in the coordinate transform. *)
Definition differ_in_extent {I J} (a : inifti I) (b : inifti J) : Prop :=
  exists d, (d < 3)%nat /\ size a d <> size b d.

Definition differ_in_spacing {I J} (a : inifti I) (b : inifti J) : Prop :=
  exists d, (d < 3)%nat /\ feq (pixsize a d) (pixsize b d) = false.

Definition differ_in_coordinates {I J} (a : inifti I) (b : inifti J) : Prop :=
  xform (hdr a) <> xform (hdr b).

(** The outcome of a run that fails with the diagnostic [msg] and has not
    constructed its output image. *)
Definition failed (msg : string) : result :=
  {| status := EXIT_FAILURE; log := [error msg]; output := None |}.

End Vocabulary.

(** ** Vocabulary of the further properties *)

Section Sequences.
Context `{Ext : Externals}.

(** The cells within the extents of [input], in the order in which the loop
    nest of [main] reaches them: [zz] is the outermost index and [ii] the
    innermost. *)
Definition cells (input : inifti idx4) : list idx4 :=
  flat_map (fun zz =>
    flat_map (fun kk =>
      flat_map (fun jj =>
        map (fun ii => (ii, jj, kk, zz)) (range (size input 0)))
        (range (size input 1)))
      (range (size input 2)))
    (range (size input 3)).

(** The body of the innermost loop at the cell [c]. *)
Definition visit_cell (input : inifti idx4) (mask : option (inifti idx3))
    (rician : float_t * option (inifti idx3)) (o : onifti) (c : idx4) : onifti :=
  let '(ii, jj, kk, zz) := c in visit input mask rician ii jj kk zz o.

(** [same_image o o']: the same file name, extents and header, and the same
    value in every cell. *)
Definition same_image (o o' : onifti) : Prop :=
  same_frame o o' /\ forall c, odata o' c = odata o c.

(** [same_outcome r r']: the same status and diagnostics, and either no
    output image in both or the same image. *)
Definition same_outcome (r r' : result) : Prop :=
  status r = status r' /\ log r = log r' /\
  match output r, output r' with
  | Some o, Some o' => same_image o o'
  | None, None => True
  | _, _ => False
  end.

End Sequences.

(* ================================================================== *)
(** * Part II. Properties *)
(* ================================================================== *)

(** ** Comparisons *)

Lemma compare_cont_Eq_swap (p q : positive) :
  Pos.compare_cont Eq p q = Eq <-> Pos.compare_cont Eq q p = Eq.
Proof.
  change (Pos.compare_cont Eq p q) with (Pos.compare p q).
  change (Pos.compare_cont Eq q p) with (Pos.compare q p).
  rewrite !Pos.compare_eq_iff. split; congruence.
Qed.

Lemma SFcompare_Eq_swap (a b : spec_float) :
  SFcompare a b = Some Eq <-> SFcompare b a = Some Eq.
Proof.
  destruct a as [sa|sa| |sa ma ea], b as [sb|sb| |sb mb eb]; cbn;
    try tauto;
    try (destruct sa; split; discriminate);
    try (destruct sb; split; discriminate);
    try (destruct sa, sb; split; congruence).
  assert (Hm := compare_cont_Eq_swap ma mb).
  destruct sa, sb; try (split; discriminate);
    rewrite (Z.compare_antisym ea eb);
    destruct (Z.compare ea eb); cbn; try (split; discriminate).
  - destruct (Pos.compare_cont Eq ma mb), (Pos.compare_cont Eq mb ma); cbn;
      intuition (try discriminate).
  - destruct (Pos.compare_cont Eq ma mb), (Pos.compare_cont Eq mb ma); cbn;
      intuition (try discriminate).
Qed.

Lemma feq_sym (a b : spec_float) : feq a b = feq b a.
Proof.
  unfold feq, SFeqb.
  assert (H := SFcompare_Eq_swap a b).
  destruct (SFcompare a b) as [[| |]|], (SFcompare b a) as [[| |]|];
    try reflexivity; exfalso;
    try (destruct H as [H _]; specialize (H eq_refl); discriminate);
    try (destruct H as [_ H]; specialize (H eq_refl); discriminate).
Qed.

Lemma fne_sym (a b : spec_float) : fne a b = fne b a.
Proof. unfold fne. f_equal. apply feq_sym. Qed.

Lemma fne_feq (a b : spec_float) : fne a b = false <-> feq a b = true.
Proof. unfold fne, feq. destruct (SFeqb a b); cbn; split; congruence. Qed.

(** ** Loops *)

Lemma In_range (n i : Z) : In i (range n) <-> 0 <= i < n.
Proof.
  unfold range. rewrite in_map_iff. split.
  - intros (k & <- & Hk). apply in_seq in Hk. lia.
  - intros Hi. exists (Z.to_nat i). split; [lia|]. apply in_seq. lia.
Qed.

Lemma existsb_range (n : Z) (f : Z -> bool) :
  existsb f (range n) = true <-> exists i, 0 <= i < n /\ f i = true.
Proof.
  rewrite existsb_exists. split; intros (i & Hi & Hf); exists i; split;
    try assumption; now apply In_range.
Qed.

Lemma for_loop_inv {S : Type} (P : S -> Prop) (n : Z) (body : Z -> S -> S) :
  (forall i s, P s -> P (body i s)) ->
  forall s, P s -> P (for_loop n body s).
Proof.
  intros Hbody. unfold for_loop.
  induction (range n) as [|i l IH]; cbn; intros s Hs; auto.
Qed.

Lemma idx4_eqb_eq (a b : idx4) : idx4_eqb a b = true <-> a = b.
Proof.
  destruct a as [[[i j] k] t], b as [[[i' j'] k'] t']. unfold idx4_eqb.
  rewrite !andb_true_iff, !Z.eqb_eq. split.
  - intros [[[-> ->] ->] ->]. reflexivity.
  - intros H. inversion H. auto.
Qed.

Section Engine.
Context `{Ext : Externals}.

Lemma writes_oset (c : idx4) (v : idx4 -> float_t) :
  writes (fun o => oset o c (v c)) (idx4_eqb c) v.
Proof.
  intros o c'. cbn. destruct (idx4_eqb c c') eqn:E; [|reflexivity].
  apply idx4_eqb_eq in E. now subst.
Qed.

Lemma writes_for (n : Z) (F : Z -> onifti -> onifti) (W : Z -> idx4 -> bool)
    (v : idx4 -> float_t) :
  (forall i, writes (F i) (W i) v) ->
  writes (for_loop n F) (fun c => existsb (fun i => W i c) (range n)) v.
Proof.
  intros HF o c. unfold for_loop. revert o.
  induction (range n) as [|i l IH]; cbn; intros o; [reflexivity|].
  rewrite IH, (HF i).
  destruct (W i c), (existsb (fun i0 => W i0 c) l); reflexivity.
Qed.

Lemma writes_visit (input : inifti idx4) (mask : option (inifti idx3))
    (rician : float_t * option (inifti idx3)) (ii jj kk zz : Z) :
  writes (visit input mask rician ii jj kk zz)
    (fun c => idx4_eqb (ii, jj, kk, zz) c && foreground mask (ii, jj, kk))
    (dispatched input rician).
Proof.
  intros o c. unfold visit, dispatched.
  destruct (foreground mask (ii, jj, kk)); [|now rewrite andb_false_r].
  rewrite andb_true_r.
  destruct (idx4_eqb (ii, jj, kk, zz) c) eqn:E.
  - apply idx4_eqb_eq in E. subst c. cbn [spatial].
    destruct (snd rician) as [noise|]; cbn.
    + now rewrite !Z.eqb_refl.
    + destruct (fgt (fst rician) zero); cbn; now rewrite !Z.eqb_refl.
  - destruct (snd rician) as [noise|]; cbn.
    + cbn in E. now rewrite !E.
    + destruct (fgt (fst rician) zero); cbn; cbn in E; now rewrite ?E.
Qed.

(** The cells that the loop nest writes: those it visits whose spatial
    position is foreground. *)
Lemma written_iff (input : inifti idx4) (mask : option (inifti idx3)) (c : idx4) :
  existsb (fun zz => existsb (fun kk => existsb (fun jj => existsb (fun ii =>
      idx4_eqb (ii, jj, kk, zz) c && foreground mask (ii, jj, kk))
    (range (size input 0))) (range (size input 1)))
    (range (size input 2))) (range (size input 3)) = true
  <-> in_bounds input c /\ foreground mask (spatial c) = true.
Proof.
  destruct c as [[[i j] k] t]. cbn [in_bounds spatial]. split.
  - intros H.
    apply existsb_range in H as (zz & Hzz & H).
    apply existsb_range in H as (kk & Hkk & H).
    apply existsb_range in H as (jj & Hjj & H).
    apply existsb_range in H as (ii & Hii & H).
    apply andb_true_iff in H as [E Hfg]. apply idx4_eqb_eq in E.
    inversion E; subst. auto.
  - intros [(Hi & Hj & Hk & Ht) Hfg].
    apply existsb_range. exists t. split; [assumption|].
    apply existsb_range. exists k. split; [assumption|].
    apply existsb_range. exists j. split; [assumption|].
    apply existsb_range. exists i. split; [assumption|].
    apply andb_true_iff. split; [now apply idx4_eqb_eq | assumption].
Qed.

Lemma correct_writes (input : inifti idx4) (mask : option (inifti idx3))
    (rician : float_t * option (inifti idx3)) :
  writes (correct input mask rician)
    (fun c => existsb (fun zz => existsb (fun kk => existsb (fun jj =>
       existsb (fun ii =>
         idx4_eqb (ii, jj, kk, zz) c && foreground mask (ii, jj, kk))
       (range (size input 0))) (range (size input 1)))
       (range (size input 2))) (range (size input 3)))
    (dispatched input rician).
Proof.
  unfold correct.
  apply (writes_for _ _ (fun zz c => existsb (fun kk => existsb (fun jj =>
       existsb (fun ii =>
         idx4_eqb (ii, jj, kk, zz) c && foreground mask (ii, jj, kk))
       (range (size input 0))) (range (size input 1)))
       (range (size input 2)))).
  intros zz.
  apply (writes_for _ _ (fun kk c => existsb (fun jj =>
       existsb (fun ii =>
         idx4_eqb (ii, jj, kk, zz) c && foreground mask (ii, jj, kk))
       (range (size input 0))) (range (size input 1)))).
  intros kk.
  apply (writes_for _ _ (fun jj c => existsb (fun ii =>
         idx4_eqb (ii, jj, kk, zz) c && foreground mask (ii, jj, kk))
       (range (size input 0)))).
  intros jj.
  apply (writes_for _ _ (fun ii c =>
         idx4_eqb (ii, jj, kk, zz) c && foreground mask (ii, jj, kk))).
  intros ii. apply writes_visit.
Qed.

(** A cell that is visited and foreground holds the dispatched value,
    converted to [float]. *)
Lemma correct_written (input : inifti idx4) (mask : option (inifti idx3))
    (rician : float_t * option (inifti idx3)) (o : onifti) (c : idx4) :
  in_bounds input c -> foreground mask (spatial c) = true ->
  odata (correct input mask rician o) c = narrow (dispatched input rician c).
Proof.
  intros Hb Hfg. rewrite (correct_writes input mask rician o c).
  now rewrite (proj2 (written_iff input mask c) (conj Hb Hfg)).
Qed.

(** A background cell, and a cell out of the bounds, keeps what it held. *)
Lemma correct_untouched (input : inifti idx4) (mask : option (inifti idx3))
    (rician : float_t * option (inifti idx3)) (o : onifti) (c : idx4) :
  foreground mask (spatial c) = false \/ ~ in_bounds input c ->
  odata (correct input mask rician o) c = odata o c.
Proof.
  intros H. rewrite (correct_writes input mask rician o c).
  match goal with |- (if ?b then _ else _) = _ => destruct b eqn:E end;
    [|reflexivity].
  apply written_iff in E as [Hb Hfg].
  destruct H as [H|H]; [congruence | contradiction].
Qed.

(** The loop nest changes the data of the output only. *)
Lemma correct_frame (input : inifti idx4) (mask : option (inifti idx3))
    (rician : float_t * option (inifti idx3)) (o : onifti) :
  same_frame o (correct input mask rician o).
Proof.
  unfold correct.
  apply (for_loop_inv (same_frame o)); [|now repeat split].
  intros zz s Hs; apply (for_loop_inv (same_frame o)); [|exact Hs]; clear s Hs.
  intros kk s Hs; apply (for_loop_inv (same_frame o)); [|exact Hs]; clear s Hs.
  intros jj s Hs; apply (for_loop_inv (same_frame o)); [|exact Hs]; clear s Hs.
  intros ii s Hs. unfold visit.
  destruct (foreground mask _); [|assumption].
  destruct (snd rician); [exact Hs|].
  destruct (fgt (fst rician) zero); exact Hs.
Qed.

End Engine.

(** ** Runs of [main] *)

Section Runs.
Context `{Ext : Externals}.

(** The output image as [main] allocates it. *)
Lemma run_output (w : world) (a : args) (o : onifti) :
  output (main w a) = Some o ->
  let input := nifti4 w (arg_input a) in
  opt_license a = false /\
  o = correct input (read_mask w a) (read_rician w a)
        (onifti_new (format_string (arg_output a)) input
           (size input 0) (size input 1) (size input 2) (size input 3)).
Proof.
  unfold main, run, bind. cbv zeta.
  destruct (opt_license a); [discriminate|].
  destruct (validate _ (read_mask w a) _ _); [|discriminate].
  destruct (validate _ (snd (read_rician w a)) _ _); [|discriminate].
  destruct (read_maxdiff a); [|discriminate].
  cbn. intros [= <-]. split; reflexivity.
Qed.

(** A run whose volumes pass the tests and whose [--maxdiff] is read
    completes: it allocates the output image, runs the loop nest and returns
    [EXIT_SUCCESS]. *)
Lemma run_completes (w : world) (a : args) (maxdiff : float_t) :
  let input := nifti4 w (arg_input a) in
  opt_license a = false ->
  validate input (read_mask w a) (arg_input a) (asString (opt_mask a)) = Ret tt ->
  validate input (snd (read_rician w a)) (arg_input a)
    (asString (opt_rician a)) = Ret tt ->
  read_maxdiff a = Ret maxdiff ->
  main w a =
    {| status := EXIT_SUCCESS;
       log := [];
       output :=
         Some (correct input (read_mask w a) (read_rician w a)
                 (onifti_new (format_string (arg_output a)) input
                    (size input 0) (size input 1) (size input 2)
                    (size input 3))) |}.
Proof.
  intros input Hl Hm Hn Hd. unfold main, run, bind. cbv zeta.
  fold input. now rewrite Hl, Hm, Hn, Hd.
Qed.

(** A run whose mask does not fit the input stops at the first test. *)
Lemma run_mask_mismatch (w : world) (a : args) (m : inifti idx3) (c : mismatch) :
  opt_license a = false ->
  read_mask w a = Some m ->
  check_geometry (nifti4 w (arg_input a)) m = Some c ->
  main w a =
    {| status := EXIT_FAILURE;
       log := [error (diagnostic c (arg_input a) (asString (opt_mask a)))];
       output := None |}.
Proof.
  intros Hl Hm Hc. unfold main, run, bind. cbv zeta.
  rewrite Hl, Hm. unfold validate at 1. now rewrite Hc.
Qed.

(** A run whose mask passes and whose noise map does not fit the input
    stops at the second test. *)
Lemma run_rician_mismatch (w : world) (a : args) (n : inifti idx3) (c : mismatch) :
  opt_license a = false ->
  validate (nifti4 w (arg_input a)) (read_mask w a)
    (arg_input a) (asString (opt_mask a)) = Ret tt ->
  snd (read_rician w a) = Some n ->
  check_geometry (nifti4 w (arg_input a)) n = Some c ->
  main w a =
    {| status := EXIT_FAILURE;
       log := [error (diagnostic c (arg_input a) (asString (opt_rician a)))];
       output := None |}.
Proof.
  intros Hl Hm Hn Hc. unfold main, run, bind. cbv zeta.
  rewrite Hl, Hm, Hn. unfold validate. now rewrite Hc.
Qed.

Lemma compatible_false {I J} (a : inifti I) (b : inifti J) :
  compatible a b = false <-> exists c, check_geometry a b = Some c.
Proof.
  unfold compatible. destruct (check_geometry a b) as [c|]; split;
    try discriminate; eauto. intros [c H]. discriminate.
Qed.

End Runs.

(** ** Diagnostics *)

Lemma append_assoc (a b c : string) :
  ((a ++ b) ++ c = a ++ (b ++ c))%string.
Proof. induction a as [|x a IH]; cbn; [reflexivity | now rewrite IH]. Qed.

Lemma diagnostic_names_input (c : mismatch) (input other : string) :
  names (diagnostic c input other) input.
Proof.
  destruct c; cbn -[append]; eexists _, _; reflexivity.
Qed.

Lemma diagnostic_names_other (c : mismatch) (input other : string) :
  names (diagnostic c input other) other.
Proof.
  destruct c; cbn -[append].
  - exists ("‘" ++ input ++ "’ and ‘")%string, "’ do not match."%string.
    now rewrite !append_assoc.
  - exists ("The pixel sizes of ‘" ++ input ++ "’ and ‘")%string,
      "’ do not match."%string.
    now rewrite !append_assoc.
  - exists ("The coordinate systems of ‘" ++ input ++ "’ and ‘")%string,
      "’ do not match."%string.
    now rewrite !append_assoc.
Qed.

(** The text of a diagnostic tells the class of the mismatch. *)
Lemma diagnostic_class (c c' : mismatch) (i o i' o' : string) :
  diagnostic c i o = diagnostic c' i' o' -> c = c'.
Proof.
  destruct c, c'; cbn; intros H; try reflexivity; discriminate H.
Qed.

(** ** Geometry compatibility *)

Lemma has_equal_spatial_coords_sym `{Ext : Externals} {I J}
    (a : inifti I) (b : inifti J) :
  has_equal_spatial_coords a b = has_equal_spatial_coords b a.
Proof.
  unfold has_equal_spatial_coords.
  destruct (transform_eq_dec (xform (hdr a)) (xform (hdr b))) as [E|E],
           (transform_eq_dec (xform (hdr b)) (xform (hdr a))) as [E'|E'];
    congruence.
Qed.

Lemma has_equal_spatial_coords_iff `{Ext : Externals} {I J}
    (a : inifti I) (b : inifti J) :
  has_equal_spatial_coords a b = true <-> xform (hdr a) = xform (hdr b).
Proof.
  unfold has_equal_spatial_coords.
  destruct (transform_eq_dec (xform (hdr a)) (xform (hdr b))); split;
    congruence.
Qed.

Lemma check_geometry_sym `{Ext : Externals} {I J}
    (a : inifti I) (b : inifti J) :
  check_geometry a b = check_geometry b a.
Proof.
  unfold check_geometry.
  rewrite (Z.eqb_sym (size a 0)), (Z.eqb_sym (size a 1)), (Z.eqb_sym (size a 2)).
  rewrite (fne_sym (pixsize a 0)), (fne_sym (pixsize a 1)),
    (fne_sym (pixsize a 2)).
  now rewrite (has_equal_spatial_coords_sym a b).
Qed.

Lemma check_geometry_None `{Ext : Externals} {I J}
    (a : inifti I) (b : inifti J) :
  check_geometry a b = None <->
  (forall d, (d < 3)%nat -> size a d = size b d) /\
  (forall d, (d < 3)%nat -> feq (pixsize a d) (pixsize b d) = true) /\
  xform (hdr a) = xform (hdr b).
Proof.
  unfold check_geometry. split.
  - destruct (_ || _ || _) eqn:Es; [discriminate|].
    destruct (fne _ _ || _ || _) eqn:Ep; [discriminate|].
    destruct (negb (has_equal_spatial_coords a b)) eqn:Ec; [discriminate|].
    intros _.
    apply orb_false_iff in Es as [Es Es2]. apply orb_false_iff in Es as [Es0 Es1].
    apply orb_false_iff in Ep as [Ep Ep2]. apply orb_false_iff in Ep as [Ep0 Ep1].
    apply negb_false_iff in Es0, Es1, Es2, Ec.
    apply Z.eqb_eq in Es0, Es1, Es2.
    apply fne_feq in Ep0, Ep1, Ep2.
    apply has_equal_spatial_coords_iff in Ec.
    repeat split; [| |exact Ec]; intros [|[|[|d]]] Hd; auto; lia.
  - intros (Hs & Hp & Hc).
    rewrite (Hs 0%nat), (Hs 1%nat), (Hs 2%nat) by lia.
    rewrite !Z.eqb_refl. cbn [negb orb].
    rewrite (proj2 (fne_feq _ _) (Hp 0%nat ltac:(lia))),
            (proj2 (fne_feq _ _) (Hp 1%nat ltac:(lia))),
            (proj2 (fne_feq _ _) (Hp 2%nat ltac:(lia))).
    cbn [orb].
    now rewrite (proj2 (has_equal_spatial_coords_iff a b) Hc).
Qed.

(** C9.  The geometry test of [main] is symmetric in its two volumes:
    [compatible a b] equals [compatible b a] (and so does the class of the
    first mismatch), and [compatible a b] holds exactly when, on each of the
    three spatial axes, the extents are equal and the voxel spacings compare
    equal with the C++ [==], and the coordinate transforms are identical. *)
Theorem compatible_symmetric `{Ext : Externals} {I J}
    (a : inifti I) (b : inifti J) :
  compatible a b = compatible b a /\
  check_geometry a b = check_geometry b a /\
  (compatible a b = true <->
   (forall d, (d < 3)%nat -> size a d = size b d) /\
   (forall d, (d < 3)%nat -> feq (pixsize a d) (pixsize b d) = true) /\
   xform (hdr a) = xform (hdr b)).
Proof.
  split; [|split].
  - unfold compatible. now rewrite (check_geometry_sym a b).
  - apply check_geometry_sym.
  - rewrite <- check_geometry_None. unfold compatible.
    destruct (check_geometry a b); split; congruence.
Qed.

(** ** Validation before processing *)

Lemma extent_test `{Ext : Externals} {I J} (a : inifti I) (b : inifti J) :
  negb (size a 0 =? size b 0) || negb (size a 1 =? size b 1)
    || negb (size a 2 =? size b 2) = true
  <-> differ_in_extent a b.
Proof.
  unfold differ_in_extent. rewrite !orb_true_iff, !negb_true_iff, !Z.eqb_neq.
  split.
  - intros [[H|H]|H]; [exists 0%nat | exists 1%nat | exists 2%nat];
      (split; [lia | exact H]).
  - intros ([|[|[|d]]] & Hd & H); try lia; tauto.
Qed.

Lemma spacing_test `{Ext : Externals} {I J} (a : inifti I) (b : inifti J) :
  fne (pixsize a 0) (pixsize b 0) || fne (pixsize a 1) (pixsize b 1)
    || fne (pixsize a 2) (pixsize b 2) = true
  <-> differ_in_spacing a b.
Proof.
  unfold differ_in_spacing, fne, feq.
  rewrite !orb_true_iff, !negb_true_iff. split.
  - intros [[H|H]|H]; [exists 0%nat | exists 1%nat | exists 2%nat];
      (split; [lia | exact H]).
  - intros ([|[|[|d]]] & Hd & H); try lia; tauto.
Qed.

Lemma coordinates_test `{Ext : Externals} {I J} (a : inifti I) (b : inifti J) :
  negb (has_equal_spatial_coords a b) = true <-> differ_in_coordinates a b.
Proof.
  unfold differ_in_coordinates, has_equal_spatial_coords.
  destruct (transform_eq_dec (xform (hdr a)) (xform (hdr b))); cbn; split;
    congruence.
Qed.

(** The class that the tests of [main] report, from the disagreement of the
    two volumes: an extent first, then a spacing, then the transform. *)
Lemma check_geometry_class `{Ext : Externals} {I J}
    (a : inifti I) (b : inifti J) :
  (differ_in_extent a b -> check_geometry a b = Some Extent) /\
  (~ differ_in_extent a b -> differ_in_spacing a b ->
   check_geometry a b = Some Spacing) /\
  (~ differ_in_extent a b -> ~ differ_in_spacing a b ->
   differ_in_coordinates a b -> check_geometry a b = Some Coordinates) /\
  (~ differ_in_extent a b -> ~ differ_in_spacing a b ->
   ~ differ_in_coordinates a b -> check_geometry a b = None).
Proof.
  assert (He := extent_test a b). assert (Hs := spacing_test a b).
  assert (Hc := coordinates_test a b). unfold check_geometry.
  destruct (negb (size a 0 =? size b 0) || _ || _);
    destruct (fne (pixsize a 0) (pixsize b 0) || _ || _);
    destruct (negb (has_equal_spatial_coords a b));
    intuition congruence.
Qed.

Lemma names_after (prefix text needle : string) :
  names text needle -> names (prefix ++ text) needle.
Proof.
  intros (pre & post & ->). exists (prefix ++ pre)%string, post.
  now rewrite append_assoc.
Qed.

(** C4, as the program has it.  In a run without [--license]: when the
    supplied mask disagrees with the input, and when the mask is absent or
    agrees and the supplied noise map disagrees, [main] returns
    [EXIT_FAILURE] with exactly one diagnostic and the output image has not
    been constructed.  The diagnostic contains the input string and the
    option string.  For a disagreement in spacing (the extents being equal)
    it is [The pixel sizes of ... do not match.], for a disagreement in
    coordinates (extents and spacings being equal) it is
    [The coordinate systems of ... do not match.], and for a disagreement in
    extent it is the unqualified [... do not match.].  A noise map that
    disagrees ends the run with [EXIT_FAILURE], one diagnostic and no output
    image whatever the mask. *)
Theorem geometry_mismatch_fails `{Ext : Externals} (w : world) (a : args) :
  opt_license a = false ->
  let input := nifti4 w (arg_input a) in
  let iname := arg_input a in
  (forall m, read_mask w a = Some m ->
     let oname := asString (opt_mask a) in
     (differ_in_extent input m ->
      main w a = failed ("‘" ++ iname ++ "’ and ‘" ++ oname
                         ++ "’ do not match.")) /\
     (~ differ_in_extent input m -> differ_in_spacing input m ->
      main w a = failed ("The pixel sizes of ‘" ++ iname ++ "’ and ‘"
                         ++ oname ++ "’ do not match.")) /\
     (~ differ_in_extent input m -> ~ differ_in_spacing input m ->
      differ_in_coordinates input m ->
      main w a = failed ("The coordinate systems of ‘" ++ iname ++ "’ and ‘"
                         ++ oname ++ "’ do not match."))) /\
  (forall n,
     (forall m, read_mask w a = Some m ->
        ~ differ_in_extent input m /\ ~ differ_in_spacing input m /\
        ~ differ_in_coordinates input m) ->
     snd (read_rician w a) = Some n ->
     let oname := asString (opt_rician a) in
     (differ_in_extent input n ->
      main w a = failed ("‘" ++ iname ++ "’ and ‘" ++ oname
                         ++ "’ do not match.")) /\
     (~ differ_in_extent input n -> differ_in_spacing input n ->
      main w a = failed ("The pixel sizes of ‘" ++ iname ++ "’ and ‘"
                         ++ oname ++ "’ do not match.")) /\
     (~ differ_in_extent input n -> ~ differ_in_spacing input n ->
      differ_in_coordinates input n ->
      main w a = failed ("The coordinate systems of ‘" ++ iname ++ "’ and ‘"
                         ++ oname ++ "’ do not match."))) /\
  (forall n, snd (read_rician w a) = Some n ->
     differ_in_extent input n \/ differ_in_spacing input n
       \/ differ_in_coordinates input n ->
     status (main w a) = EXIT_FAILURE /\ output (main w a) = None /\
     exists msg, log (main w a) = [error msg]) /\
  (forall c i o, names (diagnostic c i o) i /\ names (diagnostic c i o) o).
Proof.
  intros Hl input iname.
  assert (Hmask : forall m c, read_mask w a = Some m ->
            check_geometry input m = Some c ->
            main w a = failed (diagnostic c iname (asString (opt_mask a)))).
  { intros m c Hm Hc. now apply (run_mask_mismatch w a m c). }
  assert (Hnoise : forall n c,
            (forall m, read_mask w a = Some m -> check_geometry input m = None) ->
            snd (read_rician w a) = Some n ->
            check_geometry input n = Some c ->
            main w a = failed (diagnostic c iname (asString (opt_rician a)))).
  { intros n c Hm Hn Hc. apply (run_rician_mismatch w a n c); try assumption.
    unfold validate. destruct (read_mask w a) as [m|]; [|reflexivity].
    fold input. now rewrite (Hm m eq_refl). }
  split; [|split; [|split]].
  - intros m Hm oname.
    destruct (check_geometry_class input m) as (He & Hs & Hc & _).
    repeat split; intros.
    + apply (Hmask m Extent Hm). auto.
    + apply (Hmask m Spacing Hm). auto.
    + apply (Hmask m Coordinates Hm). auto.
  - intros n Hm Hn oname.
    assert (Hm' : forall m, read_mask w a = Some m ->
              check_geometry input m = None).
    { intros m E. destruct (Hm m E) as (H1 & H2 & H3).
      now apply check_geometry_class. }
    destruct (check_geometry_class input n) as (He & Hs & Hc & _).
    repeat split; intros.
    + apply (Hnoise n Extent Hm' Hn). auto.
    + apply (Hnoise n Spacing Hm' Hn). auto.
    + apply (Hnoise n Coordinates Hm' Hn). auto.
  - intros n Hn Hd.
    assert (Hc : exists c, check_geometry input n = Some c).
    { destruct (check_geometry input n) as [c|] eqn:E; [eauto|].
      apply check_geometry_None in E as (S & P & X). exfalso.
      destruct Hd as [(d & Hd & H)|[(d & Hd & H)|H]].
      - apply H. now apply S.
      - rewrite (P d Hd) in H. discriminate.
      - now apply H. }
    destruct Hc as [c Hc].
    destruct (read_mask w a) as [m|] eqn:Hm.
    + destruct (check_geometry input m) as [c'|] eqn:Hc'.
      * rewrite (Hmask m c' eq_refl Hc'). cbn. eauto.
      * rewrite (Hnoise n c); try assumption; [cbn; eauto|].
        now intros m' [= <-].
    + rewrite (Hnoise n c); try assumption; [cbn; eauto|].
      intros m' [=].
  - intros c i o. split;
      [apply diagnostic_names_input | apply diagnostic_names_other].
Qed.

Lemma geometry_mismatch_fails_witness :
  opt_license (Example.command "coarse.nii" "shifted.nii" "3.05e-3") = false /\
  differ_in_spacing Example.dwi Example.coarse /\
  main (Example.machine 8) (Example.command "coarse.nii" "shifted.nii" "3.05e-3")
  = failed "The pixel sizes of ‘dwi.nii’ and ‘coarse.nii’ do not match.".
Proof.
  assert (Hs : differ_in_spacing Example.dwi Example.coarse)
    by (exists 0%nat; split; [lia | reflexivity]).
  assert (He : ~ differ_in_extent Example.dwi Example.coarse).
  { intros ([|[|[|d]]] & Hd & H); try lia; now apply H. }
  split; [reflexivity|]. split; [exact Hs|].
  destruct (geometry_mismatch_fails (Example.machine 8)
              (Example.command "coarse.nii" "shifted.nii" "3.05e-3") eq_refl)
    as (Hmask & _).
  destruct (Hmask Example.coarse eq_refl) as (_ & Hspacing & _).
  exact (Hspacing He Hs).
Defined.

(** C4 as stated fails in two places.  The diagnostic of a disagreement in
    extent does not name its class: it is the unqualified text, every part
    of which also occurs in the diagnostics of the other two classes.  And a
    run with [--license] whose mask disagrees with the input prints the
    licence and returns [EXIT_SUCCESS]. *)
Lemma geometry_mismatch_counterexample :
  (differ_in_extent Example.dwi Example.small /\
   read_mask (Example.machine 8)
     (Example.command "small.nii" "none" "3.05e-3") = Some Example.small /\
   main (Example.machine 8) (Example.command "small.nii" "none" "3.05e-3")
   = failed "‘dwi.nii’ and ‘small.nii’ do not match." /\
   forall text,
     names "‘dwi.nii’ and ‘small.nii’ do not match." text ->
     names "The pixel sizes of ‘dwi.nii’ and ‘small.nii’ do not match." text /\
     names "The coordinate systems of ‘dwi.nii’ and ‘small.nii’ do not match."
       text) /\
  (read_mask (Example.machine 8)
     {| opt_license := true; arg_input := "dwi.nii"; arg_output := "out.nii";
        opt_mask := Some "small.nii"%string; opt_rician := Some "none"%string;
        opt_maxdiff := Some "3.05e-3"%string |} = Some Example.small /\
   main (Example.machine 8)
     {| opt_license := true; arg_input := "dwi.nii"; arg_output := "out.nii";
        opt_mask := Some "small.nii"%string; opt_rician := Some "none"%string;
        opt_maxdiff := Some "3.05e-3"%string |}
   = {| status := EXIT_SUCCESS; log := [print_LICENSE]; output := None |}).
Proof.
  split; [split; [|split; [|split]] | split]; try reflexivity.
  - exists 0%nat. split; [lia|]. vm_compute. discriminate.
  - intros text H. split.
    + apply (names_after "The pixel sizes of " _ text H).
    + apply (names_after "The coordinate systems of " _ text H).
Qed.

(** ** The noise option *)

(** Any successful extraction gives the scalar, whatever the stream leaves
    unread: [read_rician] tests [!(sin >> scalar)] and nothing else. *)
Lemma read_rician_extracted `{Ext : Externals} (w : world) (a : args)
    (s rest : string) (v : float_t) :
  opt_rician a = Some s -> s <> "none"%string ->
  extract s = Some (v, rest) ->
  read_rician w a = (v, None).
Proof.
  intros Ha Hs He. unfold read_rician. rewrite Ha.
  destruct (String.eqb_spec s "none"); [contradiction|]. cbn.
  now rewrite He.
Qed.

(** For instance a path that begins with a number is read as that number. *)
Example read_rician_numeric_prefix :
  read_rician (Example.machine 8) (Example.command "none" "12.5.nii" "3.05e-3")
  = (Example.dbl 125 (-1), None).
Proof. reflexivity. Qed.

(** C2.  The value of [--rician] resolves as follows.  Absent, or the
    literal [none]: no noise (the scalar 0 and no map).  A string that the
    extraction reads as a number to its end: that scalar and no map, in
    every environment, so whatever files exist.  A noise map is read from
    the string as a path only when the extraction fails, and it is read
    whenever the extraction fails. *)
Theorem read_rician_resolution `{Ext : Externals} (w : world) (a : args) :
  (opt_rician a = None \/ opt_rician a = Some "none"%string ->
   read_rician w a = (zero, None)) /\
  (forall s v, opt_rician a = Some s -> s <> "none"%string ->
     extract s = Some (v, EmptyString) ->
     forall w', read_rician w' a = (v, None)) /\
  (forall s n, opt_rician a = Some s -> snd (read_rician w a) = Some n ->
     s <> "none"%string /\ extract s = None /\
     read_rician w a = (zero, Some (nifti3 w s))) /\
  (forall s, opt_rician a = Some s -> s <> "none"%string ->
     extract s = None ->
     read_rician w a = (zero, Some (nifti3 w s))).
Proof.
  split; [|split; [|split]].
  - intros [H|H]; unfold read_rician; rewrite H; reflexivity.
  - intros s v Ha Hs He w'.
    now apply (read_rician_extracted w' a s EmptyString v).
  - intros s n Ha Hn. unfold read_rician in *. rewrite Ha in *.
    destruct (String.eqb_spec s "none") as [->|Hs]; cbn in *; [discriminate|].
    destruct (extract s) as [[v r]|]; cbn in *; [discriminate|].
    repeat split. exact Hs.
  - intros s Ha Hs He. unfold read_rician. rewrite Ha.
    destruct (String.eqb_spec s "none"); [contradiction|]. cbn.
    now rewrite He.
Qed.

Lemma read_rician_resolution_witness :
  Example.files "12.5" = Example.sigma /\
  read_rician (Example.machine 8) (Example.command "none" "12.5" "3.05e-3")
    = (Example.dbl 125 (-1), None).
Proof.
  split; [reflexivity|].
  destruct (read_rician_resolution (Example.machine 8)
              (Example.command "none" "12.5" "3.05e-3"))
    as (_ & Hscalar & _).
  apply (Hscalar "12.5"%string (Example.dbl 125 (-1)) eq_refl).
  - discriminate.
  - vm_compute. reflexivity.
Defined.

(** ** Options that the loop does not use *)

(** C6.  Two runs that differ only in the value of [--maxdiff], both values
    being read as numbers, have the same outcome: the same status, the same
    diagnostics and the same output image. *)
Theorem maxdiff_not_consumed `{Ext : Externals} (w : world)
    (l : bool) (i o : string) (m r : option string) (d1 d2 : string) :
  extract d1 <> None -> extract d2 <> None ->
  main w {| opt_license := l; arg_input := i; arg_output := o;
            opt_mask := m; opt_rician := r; opt_maxdiff := Some d1 |}
  = main w {| opt_license := l; arg_input := i; arg_output := o;
              opt_mask := m; opt_rician := r; opt_maxdiff := Some d2 |}.
Proof.
  intros H1 H2. unfold main, run, read_maxdiff, bind. cbn.
  destruct (extract d1) as [[v1 r1]|]; [|contradiction].
  destruct (extract d2) as [[v2 r2]|]; [|contradiction].
  reflexivity.
Qed.

Lemma maxdiff_not_consumed_witness :
  main (Example.machine 8) (Example.command "mask.nii" "sigma.nii" "3.05e-3")
  = main (Example.machine 8) (Example.command "mask.nii" "sigma.nii" "1e3").
Proof.
  apply (maxdiff_not_consumed (Example.machine 8) false "dwi.nii" "out.nii"
           (Some "mask.nii"%string) (Some "sigma.nii"%string)
           "3.05e-3" "1e3").
  - vm_compute. discriminate.
  - vm_compute. discriminate.
Defined.

(** C7.  Two runs of the same command line on the same images, one in an
    environment that reports one worker thread and one in an environment
    that reports [n], have the same outcome, and with it the same output
    image: [main] binds the number of threads and never uses it, and its
    loop nest is sequential. *)
Theorem threads_not_consumed `{Ext : Externals} (n : N) (w w' : world)
    (a : args) :
  threads w = 1%N -> threads w' = n ->
  nifti3 w = nifti3 w' -> nifti4 w = nifti4 w' ->
  main w a = main w' a.
Proof.
  destruct w as [t f3 f4], w' as [t' f3' f4']. cbn.
  intros _ _ <- <-.
  unfold main, run, read_mask, read_rician. cbn.
  reflexivity.
Qed.

Lemma threads_not_consumed_witness :
  main (Example.machine 1) (Example.command "mask.nii" "sigma.nii" "3.05e-3")
  = main (Example.machine 8) (Example.command "mask.nii" "sigma.nii" "3.05e-3").
Proof.
  apply (threads_not_consumed 8 (Example.machine 1) (Example.machine 8));
    reflexivity.
Defined.

(** ** The output image *)

(** C8.  When a run produces an output image, its four extents are those of
    the input and its header is the header of the input: the same voxel
    spacing, coordinate transform and remaining fields. *)
Theorem output_geometry `{Ext : Externals} (w : world) (a : args) (o : onifti) :
  output (main w a) = Some o ->
  let input := nifti4 w (arg_input a) in
  odims o = [size input 0; size input 1; size input 2; size input 3] /\
  ohdr o = hdr input /\
  (forall d, pixdim (ohdr o) d = pixsize input d) /\
  xform (ohdr o) = xform (hdr input) /\
  descrip (ohdr o) = descrip (hdr input).
Proof.
  intros H input. apply run_output in H as [_ ->]. fold input.
  destruct (correct_frame input (read_mask w a) (read_rician w a)
              (onifti_new (format_string (arg_output a)) input
                 (size input 0) (size input 1) (size input 2) (size input 3)))
    as (_ & Hd & Hh).
  rewrite Hd, Hh. cbn. repeat split.
Qed.

Lemma output_geometry_witness :
  exists o,
    output (main (Example.machine 8)
              (Example.command "mask.nii" "5.0" "3.05e-3")) = Some o /\
    odims o = [2; 1; 1; 2] /\ ohdr o = hdr Example.dwi.
Proof.
  eexists. split; [reflexivity|].
  destruct (output_geometry (Example.machine 8)
              (Example.command "mask.nii" "5.0" "3.05e-3") _ eq_refl)
    as (Hd & Hh & _).
  split; [exact Hd | exact Hh].
Defined.

(** ** The correction engine *)

(** C5.  In a run that produces an output image: a cell whose mask value is
    not greater than 0 holds the value the image was allocated with, and the
    loop nest leaves such a cell as it finds it, whatever the image held; and
    without a mask every position is foreground and every cell within the
    bounds of the input holds the dispatched value. *)
Theorem background_untouched `{Ext : Externals} (w : world) (a : args)
    (o : onifti) (c : idx4) :
  output (main w a) = Some o ->
  let input := nifti4 w (arg_input a) in
  (forall m, read_mask w a = Some m ->
     fgt (voxel m (spatial c)) zero = false ->
     odata o c = fill /\
     forall rician o0, odata (correct input (Some m) rician o0) c = odata o0 c) /\
  (read_mask w a = None ->
     (forall p, foreground (read_mask w a) p = true) /\
     (in_bounds input c ->
      odata o c = narrow (dispatched input (read_rician w a) c))).
Proof.
  intros H input. apply run_output in H as [_ ->]. fold input. split.
  - intros m Hm Hbg. rewrite Hm. split.
    + now rewrite correct_untouched by (left; exact Hbg).
    + intros rician o0. apply correct_untouched. left. exact Hbg.
  - intros Hm. rewrite Hm. split; [reflexivity|].
    intros Hb. now apply correct_written.
Qed.

Lemma background_untouched_witness :
  exists o,
    output (main (Example.machine 8)
              (Example.command "mask.nii" "sigma.nii" "3.05e-3")) = Some o /\
    fgt (voxel Example.brain (1, 0, 0)) zero = false /\
    odata o (1, 0, 0, 0) = S754_zero false.
Proof.
  eexists. split; [reflexivity|]. split; [reflexivity|].
  destruct (background_untouched (Example.machine 8)
              (Example.command "mask.nii" "sigma.nii" "3.05e-3")
              _ (1, 0, 0, 0) eq_refl) as (Hbg & _).
  destruct (Hbg Example.brain eq_refl eq_refl) as (Hfill & _).
  exact Hfill.
Defined.

(** C1, as the program has it.  A visit of a foreground cell first assigns
    the raw input value to the output cell and then dispatches on the noise;
    after the loop nest the cell, which is a [float], holds the conversion to
    [float] of: [ricedebias(input, noiseMap(i,j,k))] when a noise map is
    present; otherwise [ricedebias(input, v)] when the scalar [v] is greater
    than 0; otherwise the raw input value. *)
Theorem noise_dispatch_narrowed `{Ext : Externals} (input : inifti idx4)
    (mask : option (inifti idx3)) (rician : float_t * option (inifti idx3))
    (o : onifti) (i j k t : Z) :
  in_bounds input (i, j, k, t) -> foreground mask (i, j, k) = true ->
  let c := (i, j, k, t) in
  let copied := oset o c (voxel input c) in
  let out := correct input mask rician o in
  visit input mask rician i j k t o =
    match snd rician with
    | Some noise =>
        oset copied c (ricedebias (voxel input c) (voxel noise (i, j, k)))
    | None =>
        if fgt (fst rician) zero
        then oset copied c (ricedebias (voxel input c) (fst rician))
        else copied
    end /\
  (forall noise, snd rician = Some noise ->
     odata out c = narrow (ricedebias (voxel input c) (voxel noise (i, j, k)))) /\
  (snd rician = None -> fgt (fst rician) zero = true ->
     odata out c = narrow (ricedebias (voxel input c) (fst rician))) /\
  (snd rician = None -> fgt (fst rician) zero = false ->
     odata out c = narrow (voxel input c)).
Proof.
  intros Hb Hfg c copied out.
  assert (Hout : odata out c = narrow (dispatched input rician c))
    by now apply correct_written.
  unfold dispatched in Hout. cbn [spatial c] in Hout.
  split; [|split; [|split]].
  - unfold visit. now rewrite Hfg.
  - intros noise Hn. now rewrite Hn in Hout.
  - intros Hn Hv. now rewrite Hn, Hv in Hout.
  - intros Hn Hv. now rewrite Hn, Hv in Hout.
Qed.

Lemma noise_dispatch_narrowed_witness :
  in_bounds Example.dwi (1, 0, 0, 0) /\
  foreground (Ext := Example.externals) None (1, 0, 0) = true /\
  odata (correct Example.dwi None (Example.dbl 5 0, None)
           (onifti_new "out.nii" Example.dwi 2 1 1 2)) (1, 0, 0, 0)
  = narrow (Example.formula (Example.dbl 13 0) (Example.dbl 5 0)).
Proof.
  assert (Hb : in_bounds Example.dwi (1, 0, 0, 0)) by (vm_compute; intuition congruence).
  split; [exact Hb|]. split; [reflexivity|].
  destruct (noise_dispatch_narrowed Example.dwi None (Example.dbl 5 0, None)
              (onifti_new "out.nii" Example.dwi 2 1 1 2) 1 0 0 0 Hb eq_refl)
    as (_ & _ & Hscalar & _).
  exact (Hscalar eq_refl eq_refl).
Defined.

(** C1 as stated fails: without mask and without noise, the cell of the
    input value 0.1 does not hold the raw input value but the [float]
    nearest to it, which compares different from the input. *)
Lemma noise_dispatch_counterexample :
  exists o,
    output (main (Example.machine 8)
              (Example.command "none" "none" "3.05e-3")) = Some o /\
    read_mask (Example.machine 8)
      (Example.command "none" "none" "3.05e-3") = None /\
    read_rician (Example.machine 8)
      (Example.command "none" "none" "3.05e-3") = (zero, None) /\
    in_bounds Example.dwi (0, 0, 0, 0) /\
    voxel Example.dwi (0, 0, 0, 0) = S754_finite false 7205759403792794 (-56) /\
    odata o (0, 0, 0, 0) = S754_finite false 13421773 (-27) /\
    feq (widen (odata o (0, 0, 0, 0))) (voxel Example.dwi (0, 0, 0, 0)) = false /\
    odata o (0, 0, 0, 0) <> voxel Example.dwi (0, 0, 0, 0).
Proof.
  eexists. split; [reflexivity|].
  split; [reflexivity|]. split; [reflexivity|].
  split; [vm_compute; intuition congruence|].
  split; [reflexivity|]. split; [reflexivity|]. split; [reflexivity|].
  vm_compute. discriminate.
Qed.

(** C10.  The cell of a visited foreground position holds the value that the
    noise dispatch computes in [double], converted to [float]; so two cells,
    of one run or of two, whose [double] results have the same conversion
    hold the same value. *)
Theorem output_single_precision `{Ext : Externals} (input : inifti idx4)
    (mask : option (inifti idx3)) (rician : float_t * option (inifti idx3))
    (o : onifti) (c : idx4) :
  in_bounds input c -> foreground mask (spatial c) = true ->
  odata (correct input mask rician o) c = narrow (dispatched input rician c) /\
  forall input' mask' rician' o' c',
    in_bounds input' c' -> foreground mask' (spatial c') = true ->
    narrow (dispatched input' rician' c') = narrow (dispatched input rician c) ->
    odata (correct input' mask' rician' o') c'
    = odata (correct input mask rician o) c.
Proof.
  intros Hb Hfg. split; [now apply correct_written|].
  intros input' mask' rician' o' c' Hb' Hfg' Hn.
  now rewrite !correct_written.
Qed.

Lemma output_single_precision_witness :
  feq (voxel Example.dwi (1, 0, 0, 1)) (voxel Example.dwi (0, 0, 0, 0)) = false /\
  odata (correct Example.dwi None (zero, None)
           (onifti_new "out.nii" Example.dwi 2 1 1 2)) (1, 0, 0, 1)
  = odata (correct Example.dwi None (zero, None)
             (onifti_new "out.nii" Example.dwi 2 1 1 2)) (0, 0, 0, 0).
Proof.
  split; [reflexivity|].
  assert (Hb : in_bounds Example.dwi (0, 0, 0, 0)) by (vm_compute; intuition congruence).
  assert (Hb' : in_bounds Example.dwi (1, 0, 0, 1)) by (vm_compute; intuition congruence).
  destruct (output_single_precision Example.dwi None (zero, None)
              (onifti_new "out.nii" Example.dwi 2 1 1 2) (0, 0, 0, 0)
              Hb eq_refl) as (_ & Hsame).
  apply (Hsame Example.dwi None (zero, None)); [exact Hb'|reflexivity|].
  reflexivity.
Defined.

(* ================================================================== *)
(** * Part III. Further properties of the program *)
(* ================================================================== *)

(** ** The order of the visits *)

Lemma for_loop_fold_map {S A : Type} (f : S -> A -> S) (h : Z -> A) (n : Z)
    (body : Z -> S -> S) :
  (forall i s, body i s = f s (h i)) ->
  forall s, for_loop n body s = fold_left f (map h (range n)) s.
Proof.
  intros Hbody. unfold for_loop.
  induction (range n) as [|i l IH]; cbn; intros s; [reflexivity|].
  now rewrite IH, Hbody.
Qed.

Lemma for_loop_fold_flat_map {S A : Type} (f : S -> A -> S) (g : Z -> list A)
    (n : Z) (body : Z -> S -> S) :
  (forall i s, body i s = fold_left f (g i) s) ->
  forall s, for_loop n body s = fold_left f (flat_map g (range n)) s.
Proof.
  intros Hbody. unfold for_loop.
  induction (range n) as [|i l IH]; cbn; intros s; [reflexivity|].
  now rewrite fold_left_app, IH, Hbody.
Qed.

Lemma range_NoDup (n : Z) : NoDup (range n).
Proof.
  unfold range. apply NoDup_map_NoDup_ForallPairs; [|apply seq_NoDup].
  intros x y _ _. apply Nat2Z.inj.
Qed.

Lemma range_length (n : Z) : List.length (range n) = Z.to_nat n.
Proof. unfold range. now rewrite length_map, length_seq. Qed.

Lemma NoDup_flat_map {A B : Type} (f : A -> list B) (l : list A) :
  NoDup l ->
  (forall x, In x l -> NoDup (f x)) ->
  (forall x y b, In x l -> In y l -> In b (f x) -> In b (f y) -> x = y) ->
  NoDup (flat_map f l).
Proof.
  induction 1 as [|x l Hx Hl IH]; cbn; intros Hf Hdis; [constructor|].
  apply NoDup_app.
  - apply Hf. now left.
  - apply IH.
    + intros y Hy. apply Hf. now right.
    + intros y z b Hy Hz. apply Hdis; now right.
  - intros b Hb Hb'. apply in_flat_map in Hb' as (y & Hy & Hby).
    assert (x = y) by (apply (Hdis x y b); auto; now left).
    subst y. contradiction.
Qed.

Lemma length_flat_map_const {A B : Type} (f : A -> list B) (l : list A) (n : nat) :
  (forall x, List.length (f x) = n) ->
  List.length (flat_map f l) = (List.length l * n)%nat.
Proof.
  intros Hf. induction l as [|x l IH]; cbn; [reflexivity|].
  now rewrite length_app, IH, Hf.
Qed.

Lemma cells_in `{Ext : Externals} (input : inifti idx4) (c : idx4) :
  In c (cells input) <-> in_bounds input c.
Proof.
  destruct c as [[[i j] k] t]. unfold cells. cbn [in_bounds]. split.
  - intros H.
    apply in_flat_map in H as (zz & Hzz & H).
    apply in_flat_map in H as (kk & Hkk & H).
    apply in_flat_map in H as (jj & Hjj & H).
    apply in_map_iff in H as (ii & E & Hii).
    inversion E; subst. rewrite <- !In_range. auto.
  - intros (Hi & Hj & Hk & Ht). rewrite <- In_range in Hi, Hj, Hk, Ht.
    apply in_flat_map. exists t. split; [assumption|].
    apply in_flat_map. exists k. split; [assumption|].
    apply in_flat_map. exists j. split; [assumption|].
    apply in_map_iff. exists i. split; [reflexivity|assumption].
Qed.

Lemma cells_NoDup `{Ext : Externals} (input : inifti idx4) :
  NoDup (cells input).
Proof.
  unfold cells.
  apply NoDup_flat_map; [apply range_NoDup| |].
  - intros zz _. apply NoDup_flat_map; [apply range_NoDup| |].
    + intros kk _. apply NoDup_flat_map; [apply range_NoDup| |].
      * intros jj _.
        apply NoDup_map_NoDup_ForallPairs; [|apply range_NoDup].
        intros x y _ _ E. now inversion E.
      * intros jj jj' b _ _ H H'.
        apply in_map_iff in H as (ii & <- & _).
        apply in_map_iff in H' as (ii' & E & _). now inversion E.
    + intros kk kk' b _ _ H H'.
      apply in_flat_map in H as (jj & _ & H).
      apply in_map_iff in H as (ii & <- & _).
      apply in_flat_map in H' as (jj' & _ & H').
      apply in_map_iff in H' as (ii' & E & _). now inversion E.
  - intros zz zz' b _ _ H H'.
    apply in_flat_map in H as (kk & _ & H).
    apply in_flat_map in H as (jj & _ & H).
    apply in_map_iff in H as (ii & <- & _).
    apply in_flat_map in H' as (kk' & _ & H').
    apply in_flat_map in H' as (jj' & _ & H').
    apply in_map_iff in H' as (ii' & E & _). now inversion E.
Qed.

Lemma cells_length `{Ext : Externals} (input : inifti idx4) :
  List.length (cells input)
  = (Z.to_nat (size input 3) * (Z.to_nat (size input 2)
     * (Z.to_nat (size input 1) * Z.to_nat (size input 0))))%nat.
Proof.
  unfold cells.
  rewrite (length_flat_map_const _ _
             (Z.to_nat (size input 2)
              * (Z.to_nat (size input 1) * Z.to_nat (size input 0)))),
    range_length; [reflexivity|].
  intros zz.
  rewrite (length_flat_map_const _ _
             (Z.to_nat (size input 1) * Z.to_nat (size input 0))),
    range_length; [reflexivity|].
  intros kk.
  rewrite (length_flat_map_const _ _ (Z.to_nat (size input 0))),
    range_length; [reflexivity|].
  intros jj. now rewrite length_map, range_length.
Qed.

(** X1.  The loop nest of [main] is the left fold of its body over the cells
    within the extents of the input, taken with the series index outermost
    and the first spatial index innermost; this sequence holds every cell
    within the extents exactly once and no other cell, so the body runs
    [size(0) * size(1) * size(2) * size(3)] times. *)
Theorem correct_visits_each_cell_once `{Ext : Externals} (input : inifti idx4)
    (mask : option (inifti idx3)) (rician : float_t * option (inifti idx3))
    (o : onifti) :
  correct input mask rician o
    = fold_left (visit_cell input mask rician) (cells input) o /\
  NoDup (cells input) /\
  (forall c, In c (cells input) <-> in_bounds input c) /\
  List.length (cells input)
    = (Z.to_nat (size input 3) * (Z.to_nat (size input 2)
       * (Z.to_nat (size input 1) * Z.to_nat (size input 0))))%nat.
Proof.
  split; [|split; [apply cells_NoDup | split; [apply cells_in | apply cells_length]]].
  unfold correct, cells.
  apply (for_loop_fold_flat_map (visit_cell input mask rician)). intros zz s.
  apply (for_loop_fold_flat_map (visit_cell input mask rician)). intros kk s'.
  apply (for_loop_fold_flat_map (visit_cell input mask rician)). intros jj s''.
  apply (for_loop_fold_map (visit_cell input mask rician)). reflexivity.
Qed.

(** ** Visits are independent of one another *)

Lemma visit_frame `{Ext : Externals} (input : inifti idx4)
    (mask : option (inifti idx3)) (rician : float_t * option (inifti idx3))
    (i j k t : Z) (o : onifti) :
  same_frame o (visit input mask rician i j k t o).
Proof.
  unfold visit, same_frame.
  destruct (foreground mask (i, j, k)); [|auto].
  destruct (snd rician); [cbn; auto|].
  destruct (fgt (fst rician) zero); cbn; auto.
Qed.

(** X2.  Two visits of the loop body commute, and a visit repeated changes
    nothing more: in either order the output image has the same file name,
    extents and header and the same value in every cell.  What a visit
    stores depends on the input, the mask and the noise only, never on what
    the output held. *)
Theorem visits_commute `{Ext : Externals} (input : inifti idx4)
    (mask : option (inifti idx3)) (rician : float_t * option (inifti idx3))
    (i j k t i' j' k' t' : Z) (o : onifti) :
  same_image
    (visit input mask rician i j k t (visit input mask rician i' j' k' t' o))
    (visit input mask rician i' j' k' t' (visit input mask rician i j k t o)) /\
  same_image
    (visit input mask rician i j k t (visit input mask rician i j k t o))
    (visit input mask rician i j k t o).
Proof.
  assert (F := fun a b c d o => visit_frame input mask rician a b c d o).
  unfold same_image, same_frame in *. split; (split; [|intros c]).
  - destruct (F i j k t o) as (A1 & A2 & A3).
    destruct (F i' j' k' t' o) as (B1 & B2 & B3).
    destruct (F i j k t (visit input mask rician i' j' k' t' o)) as (C1 & C2 & C3).
    destruct (F i' j' k' t' (visit input mask rician i j k t o)) as (D1 & D2 & D3).
    repeat split; congruence.
  - rewrite !(writes_visit input mask rician _ _ _ _ _ c).
    destruct (idx4_eqb (i, j, k, t) c && foreground mask (i, j, k)),
             (idx4_eqb (i', j', k', t') c && foreground mask (i', j', k'));
      reflexivity.
  - destruct (F i j k t (visit input mask rician i j k t o)) as (C1 & C2 & C3).
    repeat split; congruence.
  - rewrite !(writes_visit input mask rician _ _ _ _ _ c).
    destruct (idx4_eqb (i, j, k, t) c && foreground mask (i, j, k));
      reflexivity.
Qed.

(** ** Cells that are never written, masks that select everything *)

(** X3.  In a run that produces an output image, every cell outside the
    extents of the input holds the allocated default; and when one of the
    four extents of the input is zero or negative the loop nest writes
    nothing: every cell holds the allocated default. *)
Theorem outside_extents_untouched `{Ext : Externals} (w : world) (a : args)
    (o : onifti) :
  output (main w a) = Some o ->
  let input := nifti4 w (arg_input a) in
  (forall c, ~ in_bounds input c -> odata o c = fill) /\
  ((exists d, (d < 4)%nat /\ size input d <= 0) ->
   forall c, odata o c = fill).
Proof.
  intros H input. apply run_output in H as [_ ->]. fold input.
  assert (Hout : forall c, ~ in_bounds input c ->
            odata (correct input (read_mask w a) (read_rician w a)
                     (onifti_new (format_string (arg_output a)) input
                        (size input 0) (size input 1) (size input 2)
                        (size input 3))) c = fill).
  { intros c Hc. now rewrite correct_untouched by (right; exact Hc). }
  split; [exact Hout|].
  intros (d & Hd & Hs) c. apply Hout.
  destruct c as [[[i j] k] t]. cbn [in_bounds].
  destruct d as [|[|[|[|d]]]]; lia.
Qed.

Lemma outside_extents_untouched_witness :
  exists o,
    output (main (Example.machine 8)
              (Example.command "none" "5.0" "3.05e-3")) = Some o /\
    odata o (2, 0, 0, 0) = S754_zero false.
Proof.
  eexists. split; [reflexivity|].
  destruct (outside_extents_untouched (Example.machine 8)
              (Example.command "none" "5.0" "3.05e-3") _ eq_refl)
    as (Hout & _).
  apply (Hout (2, 0, 0, 0)). vm_compute. intuition congruence.
Defined.

(** X4.  A mask whose value is greater than 0 at every position within the
    spatial extents of the input has the effect of no mask: the loop nest
    gives the same image. *)
Theorem positive_mask_is_no_mask `{Ext : Externals} (input : inifti idx4)
    (m : inifti idx3) (rician : float_t * option (inifti idx3)) (o : onifti) :
  (forall i j k,
     0 <= i < size input 0 -> 0 <= j < size input 1 -> 0 <= k < size input 2 ->
     fgt (voxel m (i, j, k)) zero = true) ->
  same_image (correct input (Some m) rician o) (correct input None rician o).
Proof.
  intros Hpos. split.
  - destruct (correct_frame input (Some m) rician o) as (A1 & A2 & A3).
    destruct (correct_frame input None rician o) as (B1 & B2 & B3).
    unfold same_frame. repeat split; congruence.
  - intros c.
    rewrite (correct_writes input None rician o c),
            (correct_writes input (Some m) rician o c).
    match goal with
    | |- (if ?b then _ else _) = (if ?b' then _ else _) =>
        destruct b eqn:E, b' eqn:E'; try reflexivity; exfalso
    end.
    + apply written_iff in E as [Hb _].
      assert (Hw : in_bounds input c /\ foreground (Some m) (spatial c) = true).
      { split; [exact Hb|]. destruct c as [[[i j] k] t].
        cbn in Hb |- *. apply Hpos; tauto. }
      apply written_iff in Hw. congruence.
    + apply written_iff in E' as [Hb _].
      assert (Hw : in_bounds input c /\ foreground None (spatial c) = true)
        by (split; [exact Hb|reflexivity]).
      apply written_iff in Hw. congruence.
Qed.

Lemma positive_mask_is_no_mask_witness :
  same_image
    (correct Example.dwi (Some Example.coarse) (Example.dbl 5 0, None)
       (onifti_new "out.nii" Example.dwi 2 1 1 2))
    (correct Example.dwi None (Example.dbl 5 0, None)
       (onifti_new "out.nii" Example.dwi 2 1 1 2)).
Proof.
  apply (positive_mask_is_no_mask Example.dwi Example.coarse).
  intros i j k _ _ _. reflexivity.
Defined.

(** X5.  The value of an output cell is decided at its own position: two
    runs of the loop nest agree on a cell as soon as the cell is within the
    extents of both inputs or of neither, the two inputs agree on the cell,
    the two masks agree on whether its position is foreground, the scalar
    noise is the same, the noise maps (both present or both absent) agree on
    its position, and the cell held the same value before. *)
Theorem cell_decided_locally `{Ext : Externals} (input input' : inifti idx4)
    (mask mask' : option (inifti idx3))
    (rician rician' : float_t * option (inifti idx3)) (o o' : onifti)
    (c : idx4) :
  (in_bounds input c <-> in_bounds input' c) ->
  voxel input c = voxel input' c ->
  foreground mask (spatial c) = foreground mask' (spatial c) ->
  fst rician = fst rician' ->
  match snd rician, snd rician' with
  | Some n, Some n' => voxel n (spatial c) = voxel n' (spatial c)
  | None, None => True
  | _, _ => False
  end ->
  odata o c = odata o' c ->
  odata (correct input mask rician o) c
  = odata (correct input' mask' rician' o') c.
Proof.
  intros Hb Hv Hfg Hs Hn Ho.
  rewrite (correct_writes input mask rician o c),
          (correct_writes input' mask' rician' o' c).
  assert (Hd : dispatched input rician c = dispatched input' rician' c).
  { unfold dispatched. rewrite <- Hs, <- Hv.
    destruct (snd rician) as [n|], (snd rician') as [n'|];
      try contradiction; [now rewrite Hn | reflexivity]. }
  match goal with
  | |- (if ?b then _ else _) = (if ?b' then _ else _) =>
      destruct b eqn:E, b' eqn:E'; try congruence; exfalso
  end.
  - apply written_iff in E as [Hin Hf].
    assert (Hw : in_bounds input' c /\ foreground mask' (spatial c) = true)
      by (split; [now apply Hb | congruence]).
    apply written_iff in Hw. congruence.
  - apply written_iff in E' as [Hin Hf].
    assert (Hw : in_bounds input c /\ foreground mask (spatial c) = true)
      by (split; [now apply Hb | congruence]).
    apply written_iff in Hw. congruence.
Qed.

Lemma cell_decided_locally_witness :
  odata (correct Example.dwi (Some Example.brain) (zero, Some Example.sigma)
           (onifti_new "out.nii" Example.dwi 2 1 1 2)) (0, 0, 0, 1)
  = odata (correct
             {| dims := [2; 1; 1; 2];
                hdr := hdr Example.dwi;
                voxel := fun c =>
                  if idx4_eqb c (0, 0, 0, 1) then Example.dbl 5 0 else zero |}
             None (zero, Some Example.sigma)
             (onifti_new "other.nii" Example.dwi 2 1 1 2)) (0, 0, 0, 1).
Proof.
  apply cell_decided_locally.
  - split; intros _; vm_compute; intuition congruence.
  - reflexivity.
  - reflexivity.
  - reflexivity.
  - reflexivity.
  - reflexivity.
Defined.

(** ** The geometry test as a relation *)

Lemma SFcompare_Eq (a b : spec_float) :
  SFcompare a b = Some Eq ->
  (exists s s', a = S754_zero s /\ b = S754_zero s') \/
  (a = b /\ a <> S754_nan).
Proof.
  destruct a as [sa|sa| |sa ma ea], b as [sb|sb| |sb mb eb]; cbn; intros H;
    try discriminate H;
    try (left; do 2 eexists; split; reflexivity);
    try (destruct sa; discriminate H);
    try (destruct sb; discriminate H);
    try (destruct sa, sb; try discriminate H; right; split; congruence).
  change (Pos.compare_cont Eq ma mb) with (Pos.compare ma mb) in H.
  destruct sa, sb; try discriminate H;
    destruct (Z.compare_spec ea eb); try discriminate H;
    destruct (Pos.compare_spec ma mb); try discriminate H;
    right; split; congruence.
Qed.

Lemma SFcompare_refl (a : spec_float) :
  a <> S754_nan -> SFcompare a a = Some Eq.
Proof.
  destruct a as [s|s| |s m e]; cbn; try congruence.
  - destruct s; reflexivity.
  - change (Pos.compare_cont Eq m m) with (Pos.compare m m).
    rewrite Z.compare_refl, Pos.compare_refl. destruct s; reflexivity.
Qed.

Lemma feq_iff (a b : spec_float) :
  feq a b = true <-> SFcompare a b = Some Eq.
Proof.
  unfold feq, SFeqb. destruct (SFcompare a b) as [[| |]|]; split;
    congruence.
Qed.

Lemma feq_refl_iff (a : spec_float) : feq a a = true <-> a <> S754_nan.
Proof.
  rewrite feq_iff. split.
  - intros H ->. discriminate.
  - apply SFcompare_refl.
Qed.

Lemma feq_trans (a b c : spec_float) :
  feq a b = true -> feq b c = true -> feq a c = true.
Proof.
  rewrite !feq_iff. intros Hab Hbc.
  destruct (SFcompare_Eq a b Hab) as [(s & s' & -> & ->)|[-> _]];
    [|exact Hbc].
  destruct (SFcompare_Eq _ c Hbc) as [(t & t' & _ & ->)|[<- _]];
    reflexivity.
Qed.

Lemma compatible_None `{Ext : Externals} {I J} (a : inifti I) (b : inifti J) :
  compatible a b = true <-> check_geometry a b = None.
Proof.
  unfold compatible. destruct (check_geometry a b); split; congruence.
Qed.

Lemma check_geometry_trans `{Ext : Externals} {I J K}
    (a : inifti I) (b : inifti J) (c : inifti K) :
  check_geometry a b = None -> check_geometry b c = None ->
  check_geometry a c = None.
Proof.
  rewrite !check_geometry_None.
  intros (S1 & P1 & X1) (S2 & P2 & X2). repeat split.
  - intros d Hd. now rewrite S1, S2.
  - intros d Hd. apply (feq_trans _ (pixsize b d)); auto.
  - congruence.
Qed.

(** X6.  A volume passes the geometry test against itself exactly when none
    of its three voxel spacings is a NaN: the spacings are compared with
    [!=], which holds of a NaN and itself. *)
Theorem compatible_reflexive `{Ext : Externals} {I} (a : inifti I) :
  compatible a a = true <->
  forall d, (d < 3)%nat -> pixsize a d <> S754_nan.
Proof.
  rewrite compatible_None, check_geometry_None. split.
  - intros (_ & Hp & _) d Hd. apply feq_refl_iff. now apply Hp.
  - intros Hp. repeat split. intros d Hd. apply feq_refl_iff. now apply Hp.
Qed.

(** X7.  The geometry test is transitive: when [a] fits [b] and [b] fits
    [c], then [a] fits [c]. *)
Theorem compatible_transitive `{Ext : Externals} {I J K}
    (a : inifti I) (b : inifti J) (c : inifti K) :
  compatible a b = true -> compatible b c = true -> compatible a c = true.
Proof.
  rewrite !compatible_None. apply check_geometry_trans.
Qed.

Lemma compatible_transitive_witness :
  compatible Example.brain Example.sigma = true.
Proof.
  apply (compatible_transitive Example.brain Example.dwi Example.sigma);
    reflexivity.
Defined.

(** ** The outcomes of a run *)

Lemma validate_Ret `{Ext : Externals} {I J} (input : inifti I)
    (other : option (inifti J)) (iname oname : string) :
  validate input other iname oname = Ret tt <->
  forall v, other = Some v -> compatible input v = true.
Proof.
  unfold validate, compatible. destruct other as [v|].
  - destruct (check_geometry input v) eqn:E; split.
    + discriminate.
    + intros H. specialize (H v eq_refl). rewrite E in H. discriminate.
    + intros _ v' [= <-]. now rewrite E.
    + reflexivity.
  - split; [intros _ v; discriminate | reflexivity].
Qed.

Lemma validate_Exit `{Ext : Externals} {I J} (input : inifti I)
    (other : option (inifti J)) (iname oname : string) :
  validate input other iname oname = Ret tt \/
  exists c, validate input other iname oname
            = Exit EXIT_FAILURE [error (diagnostic c iname oname)].
Proof.
  unfold validate. destruct other as [v|]; [|now left].
  destruct (check_geometry input v) as [c|]; [right; eauto | now left].
Qed.

Lemma read_maxdiff_cases `{Ext : Externals} (a : args) :
  (exists v, read_maxdiff a = Ret v /\
     forall s, opt_maxdiff a = Some s -> extract s <> None) \/
  (exists s, opt_maxdiff a = Some s /\ extract s = None /\
     read_maxdiff a
     = Exit EXIT_FAILURE [error ("Unable to parse ‘" ++ s ++ "’.")]).
Proof.
  unfold read_maxdiff. destruct (opt_maxdiff a) as [s|].
  - destruct (extract s) as [[v r]|] eqn:E.
    + left. exists v. split; [reflexivity|]. intros s' [= <-]. congruence.
    + right. exists s. auto.
  - left. eexists. split; [reflexivity|]. discriminate.
Qed.

(** X8.  Of the runs whose files were read: a run that produces an output
    image is a processing run (no [--license]) in which the mask, if one is
    supplied, fits the input, the noise map, if one is supplied, fits the
    input, and the value of [--maxdiff], if there is one, was read as a
    number; it prints nothing and its status is [EXIT_SUCCESS].  A run that
    [main] ends with [EXIT_FAILURE] has printed exactly one diagnostic and
    has not constructed the output image: every exit of [main] comes before
    the constructor.  With [--license] the outcome is the licence text,
    [EXIT_SUCCESS] and no image. *)
Theorem run_outcome `{Ext : Externals} (w : world) (a : args) :
  let input := nifti4 w (arg_input a) in
  let r := main w a in
  (output r <> None ->
   opt_license a = false /\
   (forall m, read_mask w a = Some m -> compatible input m = true) /\
   (forall n, snd (read_rician w a) = Some n -> compatible input n = true) /\
   (forall s, opt_maxdiff a = Some s -> extract s <> None) /\
   log r = [] /\ status r = EXIT_SUCCESS) /\
  (status r = EXIT_FAILURE ->
   output r = None /\ exists msg, log r = [error msg]) /\
  (opt_license a = true ->
   r = {| status := EXIT_SUCCESS; log := [print_LICENSE]; output := None |}).
Proof.
  intros input r. subst r.
  assert (Hm := validate_Ret input (read_mask w a) (arg_input a)
                  (asString (opt_mask a))).
  assert (Hn := validate_Ret input (snd (read_rician w a)) (arg_input a)
                  (asString (opt_rician a))).
  unfold main, run, bind, pure, construct, store. cbv zeta. fold input.
  destruct (opt_license a).
  { cbn. intuition (try congruence; eauto). }
  destruct (validate_Exit input (read_mask w a) (arg_input a)
              (asString (opt_mask a))) as [E | [c E]]; rewrite E in *.
  2:{ cbn. intuition (try congruence; eauto). }
  destruct (validate_Exit input (snd (read_rician w a)) (arg_input a)
              (asString (opt_rician a))) as [E' | [c E']]; rewrite E' in *.
  2:{ cbn. intuition (try congruence; eauto). }
  destruct (read_maxdiff_cases a) as [(v & -> & Hd) | (s & Hs & He & ->)].
  - cbn. intuition (try congruence; eauto).
  - cbn. intuition (try congruence; eauto).
Qed.

Lemma run_output_validated `{Ext : Externals} (w : world) (a : args)
    (o : onifti) :
  output (main w a) = Some o ->
  let input := nifti4 w (arg_input a) in
  (forall m, read_mask w a = Some m -> compatible input m = true) /\
  (forall n, snd (read_rician w a) = Some n -> compatible input n = true).
Proof.
  intros H input.
  rewrite <- (validate_Ret input (read_mask w a) (arg_input a)
                (asString (opt_mask a))).
  rewrite <- (validate_Ret input (snd (read_rician w a)) (arg_input a)
                (asString (opt_rician a))).
  revert H. unfold main, run, bind. cbv zeta. fold input.
  destruct (opt_license a); [discriminate|].
  destruct (validate input (read_mask w a) _ _) as [[]|]; [|discriminate].
  destruct (validate input (snd (read_rician w a)) _ _) as [[]|];
    [|discriminate].
  auto.
Qed.

(** X9.  In a run that produces an output image with both a mask and a
    noise map, the mask and the noise map fit each other: each was tested
    against the input only, and the test is symmetric and transitive. *)
Theorem validated_volumes_agree `{Ext : Externals} (w : world) (a : args)
    (o : onifti) (m n : inifti idx3) :
  output (main w a) = Some o ->
  read_mask w a = Some m -> snd (read_rician w a) = Some n ->
  compatible m n = true.
Proof.
  intros H Hm Hn. apply run_output_validated in H as (Vm & Vn).
  specialize (Vm m Hm). specialize (Vn n Hn).
  apply compatible_None in Vm, Vn. apply compatible_None.
  apply (check_geometry_trans m (nifti4 w (arg_input a)) n); [|exact Vn].
  now rewrite check_geometry_sym.
Qed.

Lemma validated_volumes_agree_witness :
  compatible Example.brain Example.sigma = true.
Proof.
  apply (validated_volumes_agree (Example.machine 8)
           (Example.command "mask.nii" "sigma.nii" "3.05e-3")
           (correct Example.dwi (Some Example.brain) (zero, Some Example.sigma)
              (onifti_new "out.nii" Example.dwi 2 1 1 2)));
    reflexivity.
Defined.

(** X10.  The value of [--maxdiff] is never used, and still a value that is
    not read as a number ends a processing run whose volumes pass the tests:
    [main] exits with [EXIT_FAILURE], its one diagnostic quotes the string,
    and no output image is produced. *)
Theorem maxdiff_unparsable_fails `{Ext : Externals} (w : world) (a : args)
    (s : string) :
  opt_license a = false ->
  let input := nifti4 w (arg_input a) in
  (forall m, read_mask w a = Some m -> compatible input m = true) ->
  (forall n, snd (read_rician w a) = Some n -> compatible input n = true) ->
  opt_maxdiff a = Some s -> extract s = None ->
  main w a =
    {| status := EXIT_FAILURE;
       log := [error ("Unable to parse ‘" ++ s ++ "’.")];
       output := None |}.
Proof.
  intros Hl input Hm Hn Hs He.
  apply (validate_Ret input _ (arg_input a) (asString (opt_mask a))) in Hm.
  apply (validate_Ret input _ (arg_input a) (asString (opt_rician a))) in Hn.
  unfold main, run, bind. cbv zeta. fold input.
  rewrite Hl, Hm, Hn. unfold read_maxdiff. now rewrite Hs, He.
Qed.

Lemma maxdiff_unparsable_fails_witness :
  main (Example.machine 8) (Example.command "mask.nii" "sigma.nii" "fast")
  = {| status := EXIT_FAILURE;
       log := [error "Unable to parse ‘fast’."];
       output := None |}.
Proof.
  apply (maxdiff_unparsable_fails (Example.machine 8)
           (Example.command "mask.nii" "sigma.nii" "fast") "fast").
  - reflexivity.
  - intros m [= <-]. reflexivity.
  - intros n [= <-]. reflexivity.
  - reflexivity.
  - reflexivity.
Defined.

(** ** Noise levels that switch the correction off *)

(** X11.  A scalar noise level that is not greater than 0 (zero, negative or
    NaN) has the effect of [none]: the run has the same status and
    diagnostics and, when it produces an image, the same image, every
    foreground cell holding the raw input value converted to [float]. *)
Theorem nonpositive_scalar_is_none `{Ext : Externals} (w : world)
    (l : bool) (i o : string) (m d : option string)
    (s rest : string) (v : float_t) :
  s <> "none"%string -> extract s = Some (v, rest) -> fgt v zero = false ->
  same_outcome
    (main w {| opt_license := l; arg_input := i; arg_output := o;
               opt_mask := m; opt_rician := Some s; opt_maxdiff := d |})
    (main w {| opt_license := l; arg_input := i; arg_output := o;
               opt_mask := m; opt_rician := Some "none"%string;
               opt_maxdiff := d |}).
Proof.
  intros Hs He Hv.
  unfold same_outcome, main, run, bind, read_mask, read_rician, read_maxdiff.
  cbn. destruct (String.eqb_spec s "none"); [contradiction|]. cbn.
  rewrite He. cbn.
  destruct l; cbn; [auto|].
  destruct (validate _ _ _ _) as [[]|]; cbn; [|auto].
  destruct d as [ds|]; [destruct (extract ds) as [[vd rd]|]|]; cbn; auto;
    (split; [reflexivity|]; split; [reflexivity|]; split;
     [ match goal with
       | |- same_frame (correct ?a ?b ?c ?o0) (correct ?a' ?b' ?c' ?o0') =>
           destruct (correct_frame a b c o0) as (A1 & A2 & A3);
           destruct (correct_frame a' b' c' o0') as (B1 & B2 & B3);
           unfold same_frame; repeat split; congruence
       end
     | intros c; rewrite !correct_writes;
       match goal with
       | |- (if ?b then _ else _) = _ => destruct b; [|reflexivity]
       end;
       unfold dispatched; cbn; now rewrite Hv ]).
Qed.

Lemma nonpositive_scalar_is_none_witness :
  same_outcome
    (main (Example.machine 8) (Example.command "mask.nii" "-3" "3.05e-3"))
    (main (Example.machine 8) (Example.command "mask.nii" "none" "3.05e-3")).
Proof.
  apply (nonpositive_scalar_is_none (Example.machine 8) false
           "dwi.nii" "out.nii" (Some "mask.nii"%string)
           (Some "3.05e-3"%string) "-3" EmptyString
           (of_decimal true 3 0)).
  - discriminate.
  - reflexivity.
  - reflexivity.
Defined.

(** ** The order of the visits does not matter *)

Lemma fold_visit_frame `{Ext : Externals} (input : inifti idx4)
    (mask : option (inifti idx3)) (rician : float_t * option (inifti idx3))
    (l : list idx4) (o : onifti) :
  same_frame o (fold_left (visit_cell input mask rician) l o).
Proof.
  revert o. induction l as [|[[[i j] k] t] l IH]; intros o; cbn.
  - unfold same_frame. auto.
  - destruct (IH (visit input mask rician i j k t o)) as (A1 & A2 & A3).
    destruct (visit_frame input mask rician i j k t o) as (B1 & B2 & B3).
    unfold same_frame. repeat split; congruence.
Qed.

Lemma fold_visit_writes `{Ext : Externals} (input : inifti idx4)
    (mask : option (inifti idx3)) (rician : float_t * option (inifti idx3))
    (l : list idx4) (o : onifti) (c : idx4) :
  odata (fold_left (visit_cell input mask rician) l o) c
  = if existsb (fun c' => idx4_eqb c' c && foreground mask (spatial c')) l
    then narrow (dispatched input rician c) else odata o c.
Proof.
  revert o. induction l as [|[[[i j] k] t] l IH]; intros o; cbn -[idx4_eqb].
  - reflexivity.
  - rewrite IH, (writes_visit input mask rician i j k t o c).
    destruct (idx4_eqb (i, j, k, t) c && foreground mask (i, j, k)),
      (existsb (fun c' => idx4_eqb c' c && foreground mask (spatial c')) l);
      reflexivity.
Qed.

(** X12.  The image that the loop nest produces does not depend on the
    order of its visits: running the loop body over any sequence that holds
    exactly the cells within the extents of the input, in any order and with
    repetitions, gives the same image. *)
Theorem visit_order_irrelevant `{Ext : Externals} (input : inifti idx4)
    (mask : option (inifti idx3)) (rician : float_t * option (inifti idx3))
    (l : list idx4) (o : onifti) :
  (forall c, In c l <-> in_bounds input c) ->
  same_image (correct input mask rician o)
    (fold_left (visit_cell input mask rician) l o).
Proof.
  intros Hl. split.
  - destruct (correct_frame input mask rician o) as (A1 & A2 & A3).
    destruct (fold_visit_frame input mask rician l o) as (B1 & B2 & B3).
    unfold same_frame. repeat split; congruence.
  - intros c. rewrite fold_visit_writes, (correct_writes input mask rician o c).
    match goal with
    | |- (if ?b then _ else _) = (if ?b' then _ else _) =>
        destruct b eqn:E, b' eqn:E'; try reflexivity; exfalso
    end.
    + apply existsb_exists in E as (c' & Hin & Hc').
      apply andb_true_iff in Hc' as [Heq Hfg]. apply idx4_eqb_eq in Heq.
      subst c'. apply Hl in Hin.
      assert (Hw := proj2 (written_iff input mask c) (conj Hin Hfg)).
      congruence.
    + apply written_iff in E' as [Hin Hfg]. apply Hl in Hin.
      assert (Hw : existsb (fun c' => idx4_eqb c' c
                              && foreground mask (spatial c')) l = true).
      { apply existsb_exists. exists c. split; [exact Hin|].
        apply andb_true_iff. split; [now apply idx4_eqb_eq | exact Hfg]. }
      congruence.
Qed.

Lemma visit_order_irrelevant_witness :
  same_image
    (correct Example.dwi (Some Example.brain) (zero, Some Example.sigma)
       (onifti_new "out.nii" Example.dwi 2 1 1 2))
    (fold_left
       (visit_cell Example.dwi (Some Example.brain) (zero, Some Example.sigma))
       [(1, 0, 0, 1); (0, 0, 0, 1); (0, 0, 0, 1); (1, 0, 0, 0); (0, 0, 0, 0)]
       (onifti_new "out.nii" Example.dwi 2 1 1 2)).
Proof.
  apply visit_order_irrelevant.
  intros c. rewrite <- cells_in.
  assert (E : cells Example.dwi
              = [(0, 0, 0, 0); (1, 0, 0, 0); (0, 0, 0, 1); (1, 0, 0, 1)])
    by reflexivity.
  rewrite E. cbn [In]. tauto.
Defined.

(** ** Along the series axis *)

(** X13.  The mask and the noise map are indexed by the spatial position
    only: two cells of the series at one position whose input values are
    equal hold equal values in the output, provided both are within the
    extents and held the same value before. *)
Theorem series_cells_agree `{Ext : Externals} (input : inifti idx4)
    (mask : option (inifti idx3)) (rician : float_t * option (inifti idx3))
    (o : onifti) (i j k t t' : Z) :
  in_bounds input (i, j, k, t) -> in_bounds input (i, j, k, t') ->
  voxel input (i, j, k, t) = voxel input (i, j, k, t') ->
  odata o (i, j, k, t) = odata o (i, j, k, t') ->
  odata (correct input mask rician o) (i, j, k, t)
  = odata (correct input mask rician o) (i, j, k, t').
Proof.
  intros Hb Hb' Hv Ho.
  destruct (foreground mask (i, j, k)) eqn:Hfg.
  - rewrite !correct_written by assumption.
    unfold dispatched. cbn [spatial]. now rewrite Hv.
  - rewrite !correct_untouched by (left; exact Hfg). exact Ho.
Qed.

Lemma series_cells_agree_witness :
  odata (correct
           {| dims := [1; 1; 1; 2];
              hdr := hdr Example.dwi;
              voxel := fun _ => Example.dbl 13 0 |}
           (Some Example.brain) (zero, Some Example.sigma)
           (onifti_new "out.nii" Example.dwi 1 1 1 2)) (0, 0, 0, 0)
  = odata (correct
             {| dims := [1; 1; 1; 2];
                hdr := hdr Example.dwi;
                voxel := fun _ => Example.dbl 13 0 |}
             (Some Example.brain) (zero, Some Example.sigma)
             (onifti_new "out.nii" Example.dwi 1 1 1 2)) (0, 0, 0, 1).
Proof.
  apply series_cells_agree.
  - vm_compute. intuition congruence.
  - vm_compute. intuition congruence.
  - reflexivity.
  - reflexivity.
Defined.
